(** * The note collection reducer of geeks-diary

    A shallow embedding of
    [src/browser/note/note-collection/note-collection.reducer.ts]
    and the properties of the note collection state engine.

    The reducer is a function from a state snapshot and an action to a
    new snapshot.  Reading a property of [null] is the one way it can
    fail, so the embedding returns a [result]: either the new snapshot
    or the JavaScript error that escapes to the caller. *)

From Stdlib Require Import ZArith.
From stdpp Require Import base decidable option list strings.

Local Open Scope Z_scope.

(** ** JavaScript results *)

Inductive JsError := TypeError.

Inductive result (A : Type) :=
  | Ok (a : A)
  | Throw (e : JsError).
Arguments Ok {A} a.
Arguments Throw {A} e.

(** Sequencing, written [x ← r; k]: an error in [r] skips [k]. *)
#[global] Instance result_bind : MBind result := λ A B k r,
  match r with
  | Ok a => k a
  | Throw e => Throw e
  end.

(** [o.p] where [o] may be [null]: the property read throws. *)
Definition deref {A} (o : option A) : result A :=
  match o with
  | Some a => Ok a
  | None => Throw TypeError
  end.

(** ** JavaScript arrays *)

(** [l[i]] for a number [i]; [undefined] is [None]. *)
Definition array_get {A} (l : list A) (i : Z) : option A :=
  if decide (0 ≤ i) then l !! Z.to_nat i else None.

(** [l.findIndex(p)]: the lowest index whose element passes, or [-1]. *)
Definition findIndex {A} (p : A → bool) (l : list A) : Z :=
  match list_find (λ x, p x = true) l with
  | Some (i, _) => Z.of_nat i
  | None => -1
  end.

(** ** Data model *)

Record NoteItem := {
  id : string;
  title : string;
  createdDatetime : Z;
  contentFilePath : string;
  contentFileName : string;
  stackIds : list string;
  label : option string;
}.

(** [Partial<NoteItem>]: a field that is [None] is absent from the patch. *)
Record NoteItemPatch := {
  p_id : option string;
  p_title : option string;
  p_createdDatetime : option Z;
  p_contentFilePath : option string;
  p_contentFileName : option string;
  p_stackIds : option (list string);
  p_label : option (option string);
}.

(** [{ ...note, ...patch }] *)
Definition spread (note : NoteItem) (patch : NoteItemPatch) : NoteItem :=
  {| id := default (id note) (p_id patch);
     title := default (title note) (p_title patch);
     createdDatetime := default (createdDatetime note) (p_createdDatetime patch);
     contentFilePath := default (contentFilePath note) (p_contentFilePath patch);
     contentFileName := default (contentFileName note) (p_contentFileName patch);
     stackIds := default (stackIds note) (p_stackIds patch);
     label := default (label note) (p_label patch) |}.

Inductive NoteCollectionFilterBy := BY_MONTH | BY_DATE | NONE.
Inductive NoteCollectionSortBy := CREATED | TITLE.
Inductive SortDirection := DESC | ASC.
Inductive NoteCollectionViewModes := VIEW_DETAIL | VIEW_SIMPLE.

Record NoteCollectionMonthFilter := { m_year : Z; m_month : Z }.
Record NoteCollectionDateFilter := { d_year : Z; d_month : Z; d_date : Z }.

(** The contribution table is opaque to the reducer, which only copies it. *)
Definition NoteContributionTable := list (string * Z).

Record NoteCollectionState := {
  loading : bool;
  loaded : bool;
  notes : list NoteItem;
  filteredAndSortedNotes : list NoteItem;
  selectedNote : option NoteItem;
  filterBy : NoteCollectionFilterBy;
  selectedMonth : option NoteCollectionMonthFilter;
  selectedDate : option NoteCollectionDateFilter;
  sortBy : NoteCollectionSortBy;
  sortDirection : SortDirection;
  viewMode : NoteCollectionViewModes;
  contribution : NoteContributionTable;
}.

#[global] Instance NoteItem_eq_dec : EqDecision NoteItem.
Proof. solve_decision. Defined.
#[global] Instance NoteCollectionFilterBy_eq_dec : EqDecision NoteCollectionFilterBy.
Proof. solve_decision. Defined.
#[global] Instance NoteCollectionMonthFilter_eq_dec : EqDecision NoteCollectionMonthFilter.
Proof. solve_decision. Defined.
#[global] Instance NoteCollectionDateFilter_eq_dec : EqDecision NoteCollectionDateFilter.
Proof. solve_decision. Defined.

(** *** [{ ...state, field: value }] *)

Definition set_loading (v : bool) (s : NoteCollectionState) :=
  {| loading := v; loaded := loaded s; notes := notes s;
     filteredAndSortedNotes := filteredAndSortedNotes s;
     selectedNote := selectedNote s; filterBy := filterBy s;
     selectedMonth := selectedMonth s; selectedDate := selectedDate s;
     sortBy := sortBy s; sortDirection := sortDirection s;
     viewMode := viewMode s; contribution := contribution s |}.

Definition set_loaded (v : bool) (s : NoteCollectionState) :=
  {| loading := loading s; loaded := v; notes := notes s;
     filteredAndSortedNotes := filteredAndSortedNotes s;
     selectedNote := selectedNote s; filterBy := filterBy s;
     selectedMonth := selectedMonth s; selectedDate := selectedDate s;
     sortBy := sortBy s; sortDirection := sortDirection s;
     viewMode := viewMode s; contribution := contribution s |}.

Definition set_notes (v : list NoteItem) (s : NoteCollectionState) :=
  {| loading := loading s; loaded := loaded s; notes := v;
     filteredAndSortedNotes := filteredAndSortedNotes s;
     selectedNote := selectedNote s; filterBy := filterBy s;
     selectedMonth := selectedMonth s; selectedDate := selectedDate s;
     sortBy := sortBy s; sortDirection := sortDirection s;
     viewMode := viewMode s; contribution := contribution s |}.

Definition set_filteredAndSortedNotes (v : list NoteItem) (s : NoteCollectionState) :=
  {| loading := loading s; loaded := loaded s; notes := notes s;
     filteredAndSortedNotes := v;
     selectedNote := selectedNote s; filterBy := filterBy s;
     selectedMonth := selectedMonth s; selectedDate := selectedDate s;
     sortBy := sortBy s; sortDirection := sortDirection s;
     viewMode := viewMode s; contribution := contribution s |}.

Definition set_selectedNote (v : option NoteItem) (s : NoteCollectionState) :=
  {| loading := loading s; loaded := loaded s; notes := notes s;
     filteredAndSortedNotes := filteredAndSortedNotes s;
     selectedNote := v; filterBy := filterBy s;
     selectedMonth := selectedMonth s; selectedDate := selectedDate s;
     sortBy := sortBy s; sortDirection := sortDirection s;
     viewMode := viewMode s; contribution := contribution s |}.

Definition set_filterBy (v : NoteCollectionFilterBy) (s : NoteCollectionState) :=
  {| loading := loading s; loaded := loaded s; notes := notes s;
     filteredAndSortedNotes := filteredAndSortedNotes s;
     selectedNote := selectedNote s; filterBy := v;
     selectedMonth := selectedMonth s; selectedDate := selectedDate s;
     sortBy := sortBy s; sortDirection := sortDirection s;
     viewMode := viewMode s; contribution := contribution s |}.

Definition set_selectedMonth (v : option NoteCollectionMonthFilter) (s : NoteCollectionState) :=
  {| loading := loading s; loaded := loaded s; notes := notes s;
     filteredAndSortedNotes := filteredAndSortedNotes s;
     selectedNote := selectedNote s; filterBy := filterBy s;
     selectedMonth := v; selectedDate := selectedDate s;
     sortBy := sortBy s; sortDirection := sortDirection s;
     viewMode := viewMode s; contribution := contribution s |}.

Definition set_selectedDate (v : option NoteCollectionDateFilter) (s : NoteCollectionState) :=
  {| loading := loading s; loaded := loaded s; notes := notes s;
     filteredAndSortedNotes := filteredAndSortedNotes s;
     selectedNote := selectedNote s; filterBy := filterBy s;
     selectedMonth := selectedMonth s; selectedDate := v;
     sortBy := sortBy s; sortDirection := sortDirection s;
     viewMode := viewMode s; contribution := contribution s |}.

Definition set_sortBy (v : NoteCollectionSortBy) (s : NoteCollectionState) :=
  {| loading := loading s; loaded := loaded s; notes := notes s;
     filteredAndSortedNotes := filteredAndSortedNotes s;
     selectedNote := selectedNote s; filterBy := filterBy s;
     selectedMonth := selectedMonth s; selectedDate := selectedDate s;
     sortBy := v; sortDirection := sortDirection s;
     viewMode := viewMode s; contribution := contribution s |}.

Definition set_sortDirection (v : SortDirection) (s : NoteCollectionState) :=
  {| loading := loading s; loaded := loaded s; notes := notes s;
     filteredAndSortedNotes := filteredAndSortedNotes s;
     selectedNote := selectedNote s; filterBy := filterBy s;
     selectedMonth := selectedMonth s; selectedDate := selectedDate s;
     sortBy := sortBy s; sortDirection := v;
     viewMode := viewMode s; contribution := contribution s |}.

Definition set_viewMode (v : NoteCollectionViewModes) (s : NoteCollectionState) :=
  {| loading := loading s; loaded := loaded s; notes := notes s;
     filteredAndSortedNotes := filteredAndSortedNotes s;
     selectedNote := selectedNote s; filterBy := filterBy s;
     selectedMonth := selectedMonth s; selectedDate := selectedDate s;
     sortBy := sortBy s; sortDirection := sortDirection s;
     viewMode := v; contribution := contribution s |}.

Definition set_contribution (v : NoteContributionTable) (s : NoteCollectionState) :=
  {| loading := loading s; loaded := loaded s; notes := notes s;
     filteredAndSortedNotes := filteredAndSortedNotes s;
     selectedNote := selectedNote s; filterBy := filterBy s;
     selectedMonth := selectedMonth s; selectedDate := selectedDate s;
     sortBy := sortBy s; sortDirection := sortDirection s;
     viewMode := viewMode s; contribution := v |}.

(** ** Collaborators

    The reducer imports [Sorting] from [core/sorting] and [datetime]
    from [libs/datetime], and it builds [Date] objects.  None of the
    three is part of the reducer, so they are an interface here; the
    theorems hold for every implementation of it. *)

(** The value a [Sorting] index getter returns: a number or a string. *)
Inductive IndexProp :=
  | NumberProp (n : Z)
  | StringProp (s : string).

Class Collaborators := {
  (** the platform's [Date] *)
  Date : Type;
  getFullYear : Date → Z;
  getMonth : Date → Z;
  getDate : Date → Z;
  (** [new Date(year, month)], [new Date(year, month, date)], [new Date(ms)] *)
  newDateYM : Z → Z → Date;
  newDateYMD : Z → Z → Z → Date;
  newDateMs : Z → Date;
  (** [datetime.isAtSameMonth], [datetime.isSameDay] *)
  isAtSameMonth : Date → Date → bool;
  isSameDay : Date → Date → bool;
  (** [sorting.setIndexPropGetter(g); sorting.setDirection(d).sort(items)]:
      the contents of [items] afterwards *)
  sorting_sort : (NoteItem → IndexProp) → SortDirection → list NoteItem → list NoteItem;
}.

Section Reducer.
Context `{Collaborators}.

(** ** Actions *)

Inductive NoteCollectionAction :=
  | LOAD_COLLECTION
  | LOAD_COLLECTION_COMPLETE (payload_notes : list NoteItem)
  | SELECT_DATE_FILTER (payload_date : Date)
  | SELECT_MONTH_FILTER (payload_date : Date)
  | CHANGE_SORT_ORDER (payload_sortBy : NoteCollectionSortBy)
  | CHANGE_SORT_DIRECTION (payload_sortDirection : SortDirection)
  | CHANGE_VIEW_MODE (payload_viewMode : NoteCollectionViewModes)
  | SELECT_NOTE (payload_note : NoteItem)
  | DESELECT_NOTE
  | ADD_NOTE (payload_note : NoteItem)
  | UPDATE_CONTRIBUTION (payload_contribution : NoteContributionTable)
  | CHANGE_NOTE_TITLE (payload_note : NoteItem)
      (payload_title payload_contentFilePath payload_contentFileName : string)
  | DELETE_NOTE (payload_note : NoteItem)
  | CHANGE_NOTE_STACKS (payload_note : NoteItem) (payload_stacks : list string)
  (** any action type the [switch] has no case for *)
  | OTHER_ACTION.

(** ** The reducer *)

Definition isIndexOfNoteIsSelectedNote (state : NoteCollectionState) (index : Z) : bool :=
  match array_get (notes state) index, selectedNote state with
  | Some note, Some selected => bool_decide (id note = id selected)
  | _, _ => false
  end.

Definition getIndexOfNote (state : NoteCollectionState) (targetNote : NoteItem) : Z :=
  findIndex (λ note, bool_decide (id note = id targetNote)) (notes state).

(** The getter the [switch] on [sortBy] installs. *)
Definition indexPropGetter (by_ : NoteCollectionSortBy) (note : NoteItem) : IndexProp :=
  match by_ with
  | CREATED => NumberProp (createdDatetime note)
  | TITLE => StringProp (title note)
  end.

Definition withFilteredAndSortedNotes (state : NoteCollectionState)
  : result NoteCollectionState :=
  filtered ←
    match filterBy state with
    | BY_MONTH =>
        selected ← deref (selectedMonth state);
        let filterSource := newDateYM (m_year selected) (m_month selected) in
        Ok (List.filter
              (λ note, isAtSameMonth filterSource (newDateMs (createdDatetime note)))
              (notes state))
    | BY_DATE =>
        selected ← deref (selectedDate state);
        let filterSource :=
          newDateYMD (d_year selected) (d_month selected) (d_date selected) in
        Ok (List.filter
              (λ note, isSameDay filterSource (newDateMs (createdDatetime note)))
              (notes state))
    | NONE => Ok (notes state)
    end;
  Ok (set_filteredAndSortedNotes
        (sorting_sort (indexPropGetter (sortBy state)) (sortDirection state) filtered)
        state).

Definition withNoteUpdate (state : NoteCollectionState) (index : Z)
    (patch : NoteItemPatch) : NoteCollectionState :=
  match array_get (notes state) index with
  | None => state
  | Some target =>
      let notes' := <[Z.to_nat index := spread target patch]> (notes state) in
      if isIndexOfNoteIsSelectedNote state index then
        set_notes notes'
          (set_selectedNote
             ((λ selected, spread selected patch) <$> selectedNote state) state)
      else set_notes notes' state
  end.

Definition withNoteDelete (state : NoteCollectionState) (deleteIndex : Z)
  : NoteCollectionState :=
  match array_get (notes state) deleteIndex with
  | None => state
  | Some _ =>
      let notes' := delete (Z.to_nat deleteIndex) (notes state) in
      if isIndexOfNoteIsSelectedNote state deleteIndex then
        set_notes notes' (set_selectedNote None state)
      else set_notes notes' state
  end.

(** [{ title, contentFilePath, contentFileName }] *)
Definition titlePatch (title' contentFilePath' contentFileName' : string) : NoteItemPatch :=
  {| p_id := None; p_title := Some title'; p_createdDatetime := None;
     p_contentFilePath := Some contentFilePath';
     p_contentFileName := Some contentFileName';
     p_stackIds := None; p_label := None |}.

(** [{ stackIds: stacks }] *)
Definition stacksPatch (stacks : list string) : NoteItemPatch :=
  {| p_id := None; p_title := None; p_createdDatetime := None;
     p_contentFilePath := None; p_contentFileName := None;
     p_stackIds := Some stacks; p_label := None |}.

Definition noteCollectionReducer (state : NoteCollectionState)
    (action : NoteCollectionAction) : result NoteCollectionState :=
  match action with
  | LOAD_COLLECTION =>
      Ok (set_loading true state)
  | LOAD_COLLECTION_COMPLETE payload_notes =>
      withFilteredAndSortedNotes
        (set_notes payload_notes (set_loaded true (set_loading false state)))
  | SELECT_DATE_FILTER date =>
      withFilteredAndSortedNotes
        (set_selectedDate
           (Some {| d_year := getFullYear date; d_month := getMonth date;
                    d_date := getDate date |})
           (set_filterBy BY_DATE state))
  | SELECT_MONTH_FILTER date =>
      withFilteredAndSortedNotes
        (set_selectedDate None
           (set_selectedMonth
              (Some {| m_year := getFullYear date; m_month := getMonth date |})
              (set_filterBy BY_MONTH state)))
  | CHANGE_SORT_ORDER by_ =>
      withFilteredAndSortedNotes (set_sortBy by_ state)
  | CHANGE_SORT_DIRECTION direction =>
      withFilteredAndSortedNotes (set_sortDirection direction state)
  | CHANGE_VIEW_MODE mode =>
      Ok (set_viewMode mode state)
  | SELECT_NOTE note =>
      Ok (set_selectedNote (Some note) state)
  | DESELECT_NOTE =>
      Ok (set_selectedNote None state)
  | ADD_NOTE note =>
      withFilteredAndSortedNotes (set_notes (notes state ++ [note]) state)
  | UPDATE_CONTRIBUTION table =>
      Ok (set_contribution table state)
  | CHANGE_NOTE_TITLE note title' contentFilePath' contentFileName' =>
      withFilteredAndSortedNotes
        (withNoteUpdate state (getIndexOfNote state note)
           (titlePatch title' contentFilePath' contentFileName'))
  | DELETE_NOTE note =>
      withFilteredAndSortedNotes
        (withNoteDelete state (getIndexOfNote state note))
  | CHANGE_NOTE_STACKS note stacks =>
      withFilteredAndSortedNotes
        (withNoteUpdate state (getIndexOfNote state note) (stacksPatch stacks))
  | OTHER_ACTION => Ok state
  end.

End Reducer.

(** ** The state invariants and the reachable states *)

Section Invariants.
Context `{Collaborators}.

(** The ids of a sequence of notes, in order. *)
Definition ids (l : list NoteItem) : list string := id <$> l.

(** The filter mode has its selector: [BY_MONTH] a month, [BY_DATE] a date. *)
Definition filterConfigured (s : NoteCollectionState) : Prop :=
  match filterBy s with
  | BY_MONTH => is_Some (selectedMonth s)
  | BY_DATE => is_Some (selectedDate s)
  | NONE => True
  end.

#[global] Instance filterConfigured_dec s : Decision (filterConfigured s).
Proof. unfold filterConfigured. destruct (filterBy s); apply _. Defined.

(** *** The derived view in the words of the specification

    [FilterPredicate] chooses the predicate by [filterBy]; there is none
    when the mode lacks its selector.  [OrderingStrategy] orders by
    [sortBy] and [sortDirection]. *)

Definition FilterPredicate (s : NoteCollectionState) : option (NoteItem → bool) :=
  match filterBy s with
  | BY_MONTH =>
      month ← selectedMonth s;
      Some (λ note, isAtSameMonth (newDateYM (m_year month) (m_month month))
                      (newDateMs (createdDatetime note)))
  | BY_DATE =>
      date ← selectedDate s;
      Some (λ note, isSameDay (newDateYMD (d_year date) (d_month date) (d_date date))
                      (newDateMs (createdDatetime note)))
  | NONE => Some (λ _, true)
  end.

Definition OrderingStrategy (by_ : NoteCollectionSortBy) (direction : SortDirection)
    (l : list NoteItem) : list NoteItem :=
  sorting_sort (indexPropGetter by_) direction l.

Definition derivedView (s : NoteCollectionState) : option (list NoteItem) :=
  predicate ← FilterPredicate s;
  Some (OrderingStrategy (sortBy s) (sortDirection s)
          (List.filter predicate (notes s))).

(** The stored view is what recomputing it from [notes] gives. *)
Definition fresh (s : NoteCollectionState) : Prop :=
  derivedView s = Some (filteredAndSortedNotes s).

(** No two entries of [notes] share an [id]. *)
Definition uniqueIds (s : NoteCollectionState) : Prop := NoDup (ids (notes s)).

(** The entry of [l] that carries the id of [note]: the one
    [getIndexOfNote] finds, which is the first. *)
Definition entryOf (l : list NoteItem) (note : NoteItem) : option NoteItem :=
  array_get l (findIndex (λ entry, bool_decide (id entry = id note)) l).

(** [note] is not in [l] by id, or it is equal to the entry with its id. *)
Definition agreesWith (l : list NoteItem) (note : NoteItem) : Prop :=
  match entryOf l note with
  | Some entry => entry = note
  | None => True
  end.

Definition selectionConsistent (s : NoteCollectionState) : Prop :=
  match selectedNote s with
  | Some selected => agreesWith (notes s) selected
  | None => True
  end.

(** *** The initial state

    Modelled from the spec: [createNoteCollectionInitialState] of
    [note-collection.state.ts], which is not among the sources.  The
    state is "created once per workspace session with an empty/unloaded
    default": no notes, an empty view, nothing selected, not loading and
    not loaded.  The default view configuration is not fixed by the
    specification; it has to be one the view can be computed for. *)
Definition isInitialState (s : NoteCollectionState) : Prop :=
  loading s = false ∧ loaded s = false ∧ notes s = [] ∧
  filteredAndSortedNotes s = [] ∧ selectedNote s = None ∧ filterConfigured s.

(** *** Reachability

    The store keeps the snapshot the reducer returns; a command on which
    the reducer throws produces none.  [reachableVia allowed init] are the
    states that the commands satisfying [allowed] lead to from [init]. *)
Inductive reachableVia
    (allowed : NoteCollectionState → NoteCollectionAction → Prop)
    (init : NoteCollectionState) : NoteCollectionState → Prop :=
  | reachable_init : reachableVia allowed init init
  | reachable_step s action s' :
      reachableVia allowed init s →
      allowed s action →
      noteCollectionReducer s action = Ok s' →
      reachableVia allowed init s'.

Definition anyCommand (s : NoteCollectionState) (action : NoteCollectionAction) : Prop :=
  True.

Definition reachable := reachableVia anyCommand.

(** Dispatching a sequence of commands, the first first. *)
Fixpoint run (s : NoteCollectionState) (actions : list NoteCollectionAction)
  : result NoteCollectionState :=
  match actions with
  | [] => Ok s
  | action :: rest => s' ← noteCollectionReducer s action; run s' rest
  end.

(** Each command of the sequence is allowed in the state it is issued in. *)
Fixpoint permitted
    (allowed : NoteCollectionState → NoteCollectionAction → Prop)
    (s : NoteCollectionState) (actions : list NoteCollectionAction) : Prop :=
  match actions with
  | [] => True
  | action :: rest =>
      allowed s action ∧
      match noteCollectionReducer s action with
      | Ok s' => permitted allowed s' rest
      | Throw _ => True
      end
  end.

(** Commands that bring no second entry with an id: a load whose payload
    has distinct ids, an added note whose id is new. *)
Definition uniquePayload (s : NoteCollectionState) (action : NoteCollectionAction) : Prop :=
  match action with
  | LOAD_COLLECTION_COMPLETE payload_notes => NoDup (ids payload_notes)
  | ADD_NOTE note => id note ∉ ids (notes s)
  | _ => True
  end.

(** Commands whose payload agrees with the selection: the selected note is
    absent from the collection or equal to its entry there, and a load or
    an added note brings no entry with the selected id that differs from
    the selected note. *)
Definition reconciledPayload (s : NoteCollectionState) (action : NoteCollectionAction) : Prop :=
  match action with
  | SELECT_NOTE note => agreesWith (notes s) note
  | LOAD_COLLECTION_COMPLETE payload_notes =>
      from_option (agreesWith payload_notes) True (selectedNote s)
  | ADD_NOTE note =>
      from_option (agreesWith (notes s ++ [note])) True (selectedNote s)
  | _ => True
  end.

(** *** Patches and deletions

    What the reducer's patches make of an entry, and what a patch or a
    deletion of the entry [m] makes of the selection. *)

(** The entry [m] with the title and the content file of a
    [ChangeNoteTitle] payload, every other field as it was. *)
Definition retitled (m : NoteItem)
    (title' contentFilePath' contentFileName' : string) : NoteItem :=
  {| id := id m; title := title'; createdDatetime := createdDatetime m;
     contentFilePath := contentFilePath'; contentFileName := contentFileName';
     stackIds := stackIds m; label := label m |}.

(** The entry [m] with the stacks of a [ChangeNoteStacks] payload, every
    other field as it was. *)
Definition restacked (m : NoteItem) (stacks : list string) : NoteItem :=
  {| id := id m; title := title m; createdDatetime := createdDatetime m;
     contentFilePath := contentFilePath m; contentFileName := contentFileName m;
     stackIds := stacks; label := label m |}.

(** The selection after a patch of the entry [m]. *)
Definition mirrored (patch : NoteItemPatch) (m : NoteItem)
    (selection : option NoteItem) : option NoteItem :=
  match selection with
  | Some selected =>
      if decide (id m = id selected) then Some (spread selected patch) else Some selected
  | None => None
  end.

(** The selection after the deletion of the entry [m]. *)
Definition cleared (m : NoteItem) (selection : option NoteItem) : option NoteItem :=
  match selection with
  | Some selected => if decide (id m = id selected) then None else Some selected
  | None => None
  end.

(** The commands that recompute the view under the filter configuration
    they find. *)
Definition recomputesAsConfigured (action : NoteCollectionAction) : bool :=
  match action with
  | LOAD_COLLECTION_COMPLETE _ | CHANGE_SORT_ORDER _ | CHANGE_SORT_DIRECTION _
  | ADD_NOTE _ | CHANGE_NOTE_TITLE _ _ _ _ | DELETE_NOTE _
  | CHANGE_NOTE_STACKS _ _ => true
  | _ => false
  end.

(** What a command that recomputes the view does on [s]: in a state whose
    filter mode has its selector it returns a state, of which [P] holds;
    in any other the recomputation throws. *)
Definition outcome (s : NoteCollectionState) (r : result NoteCollectionState)
    (P : NoteCollectionState → Prop) : Prop :=
  match r with
  | Ok s' => filterConfigured s ∧ P s'
  | Throw e => e = TypeError ∧ ¬ filterConfigured s
  end.

End Invariants.

(** ** An implementation of the collaborators

    Dates in the UTC time zone and a stable insertion sort.  The examples
    run on it. *)

Module Utc.

Definition msPerDay : Z := 86400000.

(** Days since 1970-01-01 to (year, month 1..12, day 1..31) of the
    proleptic Gregorian calendar. *)
Definition civilFromDays (days : Z) : Z * Z * Z :=
  let z := days + 719468 in
  let era := z `div` 146097 in
  let doe := z - era * 146097 in
  let yoe := (doe - doe `div` 1460 + doe `div` 36524 - doe `div` 146096) `div` 365 in
  let doy := doe - (365 * yoe + yoe `div` 4 - yoe `div` 100) in
  let mp := (5 * doy + 2) `div` 153 in
  let d := doy - (153 * mp + 2) `div` 5 + 1 in
  let m := if decide (mp < 10) then mp + 3 else mp - 9 in
  let y := yoe + era * 400 in
  (if decide (m ≤ 2) then y + 1 else y, m, d).

Definition daysFromCivil (y m d : Z) : Z :=
  let y := if decide (m ≤ 2) then y - 1 else y in
  let era := y `div` 400 in
  let yoe := y - era * 400 in
  let doy := (153 * (if decide (2 < m) then m - 3 else m + 9) + 2) `div` 5 + d - 1 in
  let doe := yoe * 365 + yoe `div` 4 - yoe `div` 100 + doy in
  era * 146097 + doe - 719468.

(** A date is its time value, milliseconds since the epoch. *)
Definition getFullYear (t : Z) : Z := (civilFromDays (t `div` msPerDay)).1.1.
Definition getMonth (t : Z) : Z := (civilFromDays (t `div` msPerDay)).1.2 - 1.
Definition getDate (t : Z) : Z := (civilFromDays (t `div` msPerDay)).2.

(** [new Date(year, month, date)]: months beyond 0..11 carry into the
    year, days beyond the month carry on, years 0..99 are in the 1900s. *)
Definition newDateYMD (year month date : Z) : Z :=
  let year := if decide (0 ≤ year ≤ 99) then 1900 + year else year in
  let ym := year + month `div` 12 in
  let mn := month `mod` 12 in
  (daysFromCivil ym (mn + 1) 1 + date - 1) * msPerDay.

Definition newDateYM (year month : Z) : Z := newDateYMD year month 1.

(** Modelled from the spec: [datetime.isAtSameMonth] of [libs/datetime],
    which is not among the sources: "falls in the same year and month". *)
Definition isAtSameMonth (a b : Z) : bool :=
  bool_decide (getFullYear a = getFullYear b) && bool_decide (getMonth a = getMonth b).

(** Modelled from the spec: [datetime.isSameDay] of [libs/datetime], which
    is not among the sources: "falls on the same calendar
    year/month/day". *)
Definition isSameDay (a b : Z) : bool :=
  isAtSameMonth a b && bool_decide (getDate a = getDate b).

(** Modelled from the spec: the comparator of [Sorting] of [core/sorting],
    which is not among the sources: numbers by value, strings
    lexicographically by character code, and "[DESC] is the exact reverse
    of [ASC] for the same key", a single comparator with a sign flip. *)
Definition compareProp (a b : IndexProp) : comparison :=
  match a, b with
  | NumberProp x, NumberProp y => x ?= y
  | StringProp x, StringProp y => String.compare x y
  | _, _ => Eq
  end.

Definition compareItems (getter : NoteItem → IndexProp) (direction : SortDirection)
    (a b : NoteItem) : comparison :=
  match direction with
  | ASC => compareProp (getter a) (getter b)
  | DESC => CompOpp (compareProp (getter a) (getter b))
  end.

(** Modelled from the spec: [Sorting.sort], "stable for equal keys
    (original relative order preserved)".  An item goes in front of the
    first item it is smaller than. *)
Fixpoint insertItem (cmp : NoteItem → NoteItem → comparison) (x : NoteItem)
    (sorted : list NoteItem) : list NoteItem :=
  match sorted with
  | [] => [x]
  | y :: rest =>
      match cmp x y with
      | Lt => x :: y :: rest
      | _ => y :: insertItem cmp x rest
      end
  end.

Definition sort (getter : NoteItem → IndexProp) (direction : SortDirection)
    (items : list NoteItem) : list NoteItem :=
  foldl (λ sorted x, insertItem (compareItems getter direction) x sorted) [] items.

#[global] Instance collaborators : Collaborators :=
  Build_Collaborators Z getFullYear getMonth getDate
    newDateYM newDateYMD (λ ms, ms) isAtSameMonth isSameDay sort.

(** An initial state: the month filter on March 2024, newest first. *)
Definition initialState : NoteCollectionState :=
  {| loading := false; loaded := false; notes := [];
     filteredAndSortedNotes := []; selectedNote := None;
     filterBy := BY_MONTH;
     selectedMonth := Some {| m_year := 2024; m_month := 2 |};
     selectedDate := None;
     sortBy := CREATED; sortDirection := DESC;
     viewMode := VIEW_DETAIL; contribution := [] |}.

(** An initial state without a filter, titles ascending. *)
Definition unfilteredState : NoteCollectionState :=
  {| loading := false; loaded := false; notes := [];
     filteredAndSortedNotes := []; selectedNote := None;
     filterBy := NONE; selectedMonth := None; selectedDate := None;
     sortBy := TITLE; sortDirection := ASC;
     viewMode := VIEW_DETAIL; contribution := [] |}.

Definition note (id' title' : string) (created : Z) : NoteItem :=
  {| id := id'; title := title'; createdDatetime := created;
     contentFilePath := "/notes/" +:+ id' +:+ ".md";
     contentFileName := id' +:+ ".md";
     stackIds := []; label := None |}.

(** 2024-02-10 and 2024-03-05, at noon. *)
Definition T0 : Z := 1707566400000.
Definition T1 : Z := 1709640000000.

Definition noteA : NoteItem := note "a" "Alpha" T0.
Definition noteB : NoteItem := note "b" "Beta" T1.

(** The note "a" as a later load finds it, and a second note with the id
    "a". *)
Definition noteA_renamed : NoteItem := note "a" "Alpha, revised" T0.
Definition noteA_again : NoteItem := note "a" "Another Alpha" T1.

(** Both notes loaded under the March filter: the view has the March
    note. *)
Definition loadedState : NoteCollectionState :=
  set_filteredAndSortedNotes [noteB]
    (set_notes [noteA; noteB] (set_loaded true initialState)).

(** The same note added twice. *)
Definition duplicatedState : NoteCollectionState :=
  set_filteredAndSortedNotes [noteA; noteA] (set_notes [noteA; noteA] unfilteredState).

(** Two notes added, one after the other. *)
Definition twoNotesState : NoteCollectionState :=
  set_filteredAndSortedNotes [noteA; noteB] (set_notes [noteA; noteB] unfilteredState).

(** The note "a" loaded and selected. *)
Definition selectedState : NoteCollectionState :=
  set_selectedNote (Some noteA)
    (set_filteredAndSortedNotes [noteA]
       (set_notes [noteA] (set_loaded true unfilteredState))).

(** ... and loaded again under its new title: the selection has the old. *)
Definition reloadedState : NoteCollectionState :=
  set_filteredAndSortedNotes [noteA_renamed] (set_notes [noteA_renamed] selectedState).

(** A view that was not computed from [notes]. *)
Definition staleViewState : NoteCollectionState :=
  set_filteredAndSortedNotes [noteB] unfilteredState.

(** The date filter without a date. *)
Definition unconfiguredState : NoteCollectionState :=
  set_filterBy BY_DATE unfilteredState.

(** Two entries with the id "a", the first of them selected. *)
Definition twinsState : NoteCollectionState :=
  set_selectedNote (Some noteA)
    (set_filteredAndSortedNotes [noteA; noteA_again]
       (set_notes [noteA; noteA_again] unfilteredState)).

(** ... and the first of them deleted. *)
Definition twinsDeletedState : NoteCollectionState :=
  set_selectedNote None
    (set_filteredAndSortedNotes [noteA_again] (set_notes [noteA_again] twinsState)).

End Utc.

(** Closed goals about the examples, by evaluation. *)
Ltac evaluated :=
  first [ reflexivity | exact I | by eexists
        | apply (bool_decide_unpack _); vm_compute; exact I ].

(** ** Arrays: [findIndex], element update and [splice] *)

Section Arrays.
Context {A : Type} (p : A → bool).

Lemma array_get_nat (l : list A) (i : nat) : array_get l (Z.of_nat i) = l !! i.
Proof.
  unfold array_get. rewrite decide_True by lia. by rewrite Nat2Z.id.
Qed.

Lemma array_get_negative (l : list A) (i : Z) : i < 0 → array_get l i = None.
Proof. intros Hi. unfold array_get. by rewrite decide_False by lia. Qed.

(** The index [findIndex] returns when an element passes: the elements
    before it all fail. *)
Lemma findIndex_first (pre post : list A) (m : A) :
  Forall (λ x, p x = false) pre → p m = true →
  findIndex p (pre ++ m :: post) = Z.of_nat (length pre).
Proof.
  intros Hpre Hm. unfold findIndex.
  assert (list_find (λ x, p x = true) (pre ++ m :: post) = Some (length pre, m)) as ->;
    [|done].
  apply list_find_Some. split_and!.
  - by rewrite list_lookup_middle.
  - done.
  - intros j y Hj Hlt. rewrite lookup_app_l in Hj by done.
    rewrite Forall_lookup in Hpre. rewrite (Hpre j y Hj). discriminate.
Qed.

Lemma findIndex_none (l : list A) :
  Forall (λ x, p x = false) l → findIndex p l = -1.
Proof.
  intros Hl. unfold findIndex.
  assert (list_find (λ x, p x = true) l = None) as ->; [|done].
  apply list_find_None. eapply Forall_impl; [done|].
  intros x Hx. simpl in Hx. rewrite Hx. discriminate.
Qed.

(** Either no element passes and the index is [-1], or the array splits
    at the first element that passes. *)
Lemma findIndex_cases (l : list A) :
  (Forall (λ x, p x = false) l ∧ findIndex p l = -1) ∨
  (∃ pre m post, l = pre ++ m :: post ∧ Forall (λ x, p x = false) pre ∧
     p m = true ∧ findIndex p l = Z.of_nat (length pre)).
Proof.
  induction l as [|x l IH].
  - left. split; [constructor|done].
  - destruct (p x) eqn:Hx.
    + right. exists [], x, l. split_and!; try done.
      by apply (findIndex_first [] l x).
    + destruct IH as [[Hall _]|(pre & m & post & -> & Hpre & Hm & _)].
      * left. split; [by constructor|]. apply findIndex_none. by constructor.
      * right. exists (x :: pre), m, post. split_and!; try done.
        -- by constructor.
        -- apply (findIndex_first (x :: pre) post m); [by constructor|done].
Qed.

Lemma lookup_first (pre post : list A) (m : A) :
  array_get (pre ++ m :: post) (Z.of_nat (length pre)) = Some m.
Proof. rewrite array_get_nat. by rewrite list_lookup_middle. Qed.

Lemma insert_first (pre post : list A) (m m' : A) :
  <[Z.to_nat (Z.of_nat (length pre)) := m']> (pre ++ m :: post) = pre ++ m' :: post.
Proof.
  rewrite Nat2Z.id. rewrite insert_app_r_alt by lia.
  by rewrite Nat.sub_diag.
Qed.

Lemma delete_first (pre post : list A) (m : A) :
  delete (Z.to_nat (Z.of_nat (length pre))) (pre ++ m :: post) = pre ++ post.
Proof. rewrite Nat2Z.id. apply delete_middle. Qed.

Lemma filter_all (l : list A) : List.filter (λ _, true) l = l.
Proof. induction l as [|x l IH]; simpl; [done|by rewrite IH]. Qed.

End Arrays.

(** ** The derived view *)

Section View.
Context `{Collaborators}.

Implicit Types s : NoteCollectionState.

Lemma set_filteredAndSortedNotes_same s :
  set_filteredAndSortedNotes (filteredAndSortedNotes s) s = s.
Proof. by destruct s. Qed.

Lemma derivedView_configured s : is_Some (derivedView s) ↔ filterConfigured s.
Proof.
  unfold derivedView, FilterPredicate, filterConfigured.
  destruct (filterBy s); simpl.
  - destruct (selectedMonth s); simpl; split; intros [? ?]; by eauto.
  - destruct (selectedDate s); simpl; split; intros [? ?]; by eauto.
  - split; by eauto.
Qed.

Lemma derivedView_unconfigured s : derivedView s = None ↔ ¬ filterConfigured s.
Proof. rewrite <-derivedView_configured, eq_None_not_Some. done. Qed.

(** The code against the specification's words: [withFilteredAndSortedNotes]
    stores the derived view, and throws where there is none. *)
Lemma withFilteredAndSortedNotes_derivedView s :
  withFilteredAndSortedNotes s =
    match derivedView s with
    | Some view => Ok (set_filteredAndSortedNotes view s)
    | None => Throw TypeError
    end.
Proof.
  unfold withFilteredAndSortedNotes, derivedView, FilterPredicate, OrderingStrategy.
  destruct (filterBy s); simpl.
  - by destruct (selectedMonth s).
  - by destruct (selectedDate s).
  - by rewrite filter_all.
Qed.

(** The view is computed from [notes] and the view configuration only. *)
Lemma derivedView_inputs s1 s2 :
  notes s1 = notes s2 → filterBy s1 = filterBy s2 →
  selectedMonth s1 = selectedMonth s2 → selectedDate s1 = selectedDate s2 →
  sortBy s1 = sortBy s2 → sortDirection s1 = sortDirection s2 →
  derivedView s1 = derivedView s2.
Proof.
  intros Hn Hf Hm Hd Hb Hdir. unfold derivedView, FilterPredicate.
  by rewrite Hn, Hf, Hm, Hd, Hb, Hdir.
Qed.

Lemma withFilteredAndSortedNotes_Ok s s' :
  withFilteredAndSortedNotes s = Ok s' →
  ∃ view, derivedView s = Some view ∧ s' = set_filteredAndSortedNotes view s.
Proof.
  rewrite withFilteredAndSortedNotes_derivedView.
  destruct (derivedView s) as [view|]; [|done].
  intros [= <-]. by exists view.
Qed.

Lemma withFilteredAndSortedNotes_fresh s s' :
  withFilteredAndSortedNotes s = Ok s' → fresh s'.
Proof.
  intros (view & Hview & ->)%withFilteredAndSortedNotes_Ok.
  unfold fresh. simpl. rewrite <-Hview. by apply derivedView_inputs.
Qed.

Lemma withFilteredAndSortedNotes_of_fresh s :
  fresh s → withFilteredAndSortedNotes s = Ok s.
Proof.
  unfold fresh. intros Hs. rewrite withFilteredAndSortedNotes_derivedView, Hs.
  by rewrite set_filteredAndSortedNotes_same.
Qed.

Lemma fresh_configured s : fresh s → filterConfigured s.
Proof. unfold fresh. intros Hs. apply derivedView_configured. by eexists. Qed.

(** Recomputing the view of [s1] for a command issued on [s0]. *)
Lemma outcome_recompute s0 s1 (P : NoteCollectionState → Prop) :
  (filterConfigured s1 ↔ filterConfigured s0) →
  (∀ view, derivedView s1 = Some view → P (set_filteredAndSortedNotes view s1)) →
  outcome s0 (withFilteredAndSortedNotes s1) P.
Proof.
  intros Hcfg HP. rewrite withFilteredAndSortedNotes_derivedView.
  destruct (derivedView s1) as [view|] eqn:Hview; simpl.
  - split; [|by apply HP]. apply Hcfg, derivedView_configured. by eexists.
  - split; [done|]. rewrite <-Hcfg. by apply derivedView_unconfigured.
Qed.

End View.

(** ** Patching and deleting the entry of a note *)

Section Entries.
Context `{Collaborators}.

Implicit Types s : NoteCollectionState.
Implicit Types l pre post : list NoteItem.

Lemma absent_no_match l (note : NoteItem) :
  id note ∉ ids l ↔ Forall (λ entry, bool_decide (id entry = id note) = false) l.
Proof.
  unfold ids. rewrite Forall_forall. split.
  - intros Hnote entry Hentry. apply bool_decide_eq_false. intros Heq.
    apply Hnote. rewrite <-Heq. by apply list_elem_of_fmap_2.
  - intros Hall (entry & Heq & Hentry)%list_elem_of_fmap.
    specialize (Hall entry Hentry). apply bool_decide_eq_false in Hall. done.
Qed.

Lemma getIndexOfNote_absent s (note : NoteItem) :
  id note ∉ ids (notes s) → getIndexOfNote s note = -1.
Proof. intros Hnote. apply findIndex_none. by apply absent_no_match. Qed.

Lemma getIndexOfNote_first s (note m : NoteItem) pre post :
  notes s = pre ++ m :: post → id note ∉ ids pre → id m = id note →
  getIndexOfNote s note = Z.of_nat (length pre).
Proof.
  intros Hnotes Hpre Hm. unfold getIndexOfNote. rewrite Hnotes.
  apply findIndex_first; [by apply absent_no_match|by apply bool_decide_eq_true].
Qed.

(** A note whose id occurs: the collection splits at the first entry
    carrying the id. *)
Lemma present_split l (note : NoteItem) :
  id note ∈ ids l →
  ∃ pre m post, l = pre ++ m :: post ∧ (id note ∉ ids pre) ∧ id m = id note.
Proof.
  intros Hnote.
  destruct (findIndex_cases (λ entry, bool_decide (id entry = id note)) l)
    as [[Hall _]|(pre & m & post & -> & Hpre & Hm & _)].
  - by apply absent_no_match in Hall.
  - exists pre, m, post. split_and!; [done|by apply absent_no_match|].
    by apply bool_decide_eq_true in Hm.
Qed.

Lemma withNoteUpdate_absent s (patch : NoteItemPatch) :
  withNoteUpdate s (-1) patch = s.
Proof. unfold withNoteUpdate. by rewrite array_get_negative. Qed.

Lemma withNoteDelete_absent s : withNoteDelete s (-1) = s.
Proof. unfold withNoteDelete. by rewrite array_get_negative. Qed.

Lemma withNoteUpdate_first s (patch : NoteItemPatch) (m : NoteItem) pre post :
  notes s = pre ++ m :: post →
  withNoteUpdate s (Z.of_nat (length pre)) patch =
    set_notes (pre ++ spread m patch :: post)
      (set_selectedNote (mirrored patch m (selectedNote s)) s).
Proof.
  intros Hnotes. unfold withNoteUpdate, isIndexOfNoteIsSelectedNote.
  rewrite Hnotes, lookup_first, insert_first. unfold mirrored.
  destruct s as [? ? ? ? [selected|] ? ? ? ? ? ? ?]; simpl in *; [|done].
  case_bool_decide; [by rewrite decide_True|by rewrite decide_False].
Qed.

Lemma withNoteDelete_first s (m : NoteItem) pre post :
  notes s = pre ++ m :: post →
  withNoteDelete s (Z.of_nat (length pre)) =
    set_notes (pre ++ post) (set_selectedNote (cleared m (selectedNote s)) s).
Proof.
  intros Hnotes. unfold withNoteDelete, isIndexOfNoteIsSelectedNote.
  rewrite Hnotes, lookup_first, delete_first. unfold cleared.
  destruct s as [? ? ? ? [selected|] ? ? ? ? ? ? ?]; simpl in *; [|done].
  case_bool_decide; [by rewrite decide_True|by rewrite decide_False].
Qed.

End Entries.

Section EntryOf.
Context `{Collaborators}.

Implicit Types l pre post : list NoteItem.

Lemma entryOf_cons (x : NoteItem) l (note : NoteItem) :
  entryOf (x :: l) note = if decide (id x = id note) then Some x else entryOf l note.
Proof.
  unfold entryOf. set (p := λ entry : NoteItem, bool_decide (id entry = id note)).
  case_decide as Hx.
  - assert (findIndex p (x :: l) = 0) as ->; [|done].
    apply (findIndex_first p [] l x); [constructor|by apply bool_decide_eq_true].
  - assert (p x = false) as Hpx by by apply bool_decide_eq_false.
    destruct (findIndex_cases p l)
      as [[Hall Hl]|(pre & m & post & -> & Hpre & Hm & Hl)]; rewrite Hl.
    + rewrite findIndex_none by by constructor. done.
    + assert (findIndex p (x :: pre ++ m :: post) = Z.of_nat (length (x :: pre))) as ->.
      { apply (findIndex_first p (x :: pre) post m); [by constructor|done]. }
      rewrite lookup_first. apply (lookup_first (x :: pre)).
Qed.

Lemma entryOf_first l pre post (m note : NoteItem) :
  l = pre ++ m :: post → id note ∉ ids pre → id m = id note →
  entryOf l note = Some m.
Proof.
  intros -> Hpre Hm. induction pre as [|x pre IH]; simpl.
  - rewrite entryOf_cons. by rewrite decide_True.
  - rewrite entryOf_cons. unfold ids in Hpre. rewrite fmap_cons, not_elem_of_cons in Hpre.
    destruct Hpre as [Hx Hpre]. rewrite decide_False by done. by apply IH.
Qed.

Lemma entryOf_absent l (note : NoteItem) : id note ∉ ids l ↔ entryOf l note = None.
Proof.
  split.
  - intros Hnote. unfold entryOf. rewrite findIndex_none by by apply absent_no_match.
    by apply array_get_negative.
  - intros Hnone Hnote. apply present_split in Hnote as (pre & m & post & Hl & Hpre & Hm).
    by rewrite (entryOf_first l pre post m) in Hnone.
Qed.

(** Entries with another id do not matter to the entry of [note]. *)
Lemma entryOf_skip pre post (x note : NoteItem) :
  id x ≠ id note → entryOf (pre ++ x :: post) note = entryOf (pre ++ post) note.
Proof.
  intros Hx. induction pre as [|y pre IH]; simpl.
  - rewrite entryOf_cons. by rewrite decide_False.
  - rewrite !entryOf_cons. by rewrite IH.
Qed.

Lemma entryOf_same_id l (a b : NoteItem) : id a = id b → entryOf l a = entryOf l b.
Proof. intros Hab. unfold entryOf. by rewrite Hab. Qed.

End EntryOf.

(** ** The commands *)

Section Commands.
Context `{Collaborators}.

Implicit Types s init : NoteCollectionState.
Implicit Types action : NoteCollectionAction.

(** What [ChangeNoteTitle], [ChangeNoteStacks] and [DeleteNote] find. *)
Lemma update_cases s (note : NoteItem) (patch : NoteItemPatch) :
  ((id note ∉ ids (notes s)) ∧
     withNoteUpdate s (getIndexOfNote s note) patch = s) ∨
  (∃ pre m post,
     notes s = pre ++ m :: post ∧ (id note ∉ ids pre) ∧ id m = id note ∧
     withNoteUpdate s (getIndexOfNote s note) patch =
       set_notes (pre ++ spread m patch :: post)
         (set_selectedNote (mirrored patch m (selectedNote s)) s)).
Proof.
  destruct (decide (id note ∈ ids (notes s))) as [Hin|Hout].
  - right. apply present_split in Hin as (pre & m & post & Hnotes & Hpre & Hm).
    exists pre, m, post. split_and!; try done.
    rewrite (getIndexOfNote_first s note m pre post) by done.
    by apply withNoteUpdate_first.
  - left. split; [done|]. rewrite getIndexOfNote_absent by done.
    apply withNoteUpdate_absent.
Qed.

Lemma delete_cases s (note : NoteItem) :
  ((id note ∉ ids (notes s)) ∧ withNoteDelete s (getIndexOfNote s note) = s) ∨
  (∃ pre m post,
     notes s = pre ++ m :: post ∧ (id note ∉ ids pre) ∧ id m = id note ∧
     withNoteDelete s (getIndexOfNote s note) =
       set_notes (pre ++ post) (set_selectedNote (cleared m (selectedNote s)) s)).
Proof.
  destruct (decide (id note ∈ ids (notes s))) as [Hin|Hout].
  - right. apply present_split in Hin as (pre & m & post & Hnotes & Hpre & Hm).
    exists pre, m, post. split_and!; try done.
    rewrite (getIndexOfNote_first s note m pre post) by done.
    by apply withNoteDelete_first.
  - left. split; [done|]. rewrite getIndexOfNote_absent by done.
    apply withNoteDelete_absent.
Qed.

(** The fields a recomputation leaves alone. *)
Lemma withFilteredAndSortedNotes_frame s s' :
  withFilteredAndSortedNotes s = Ok s' →
  notes s' = notes s ∧ selectedNote s' = selectedNote s ∧
  loading s' = loading s ∧ loaded s' = loaded s ∧
  filterBy s' = filterBy s ∧ selectedMonth s' = selectedMonth s ∧
  selectedDate s' = selectedDate s.
Proof. by intros (view & _ & ->)%withFilteredAndSortedNotes_Ok. Qed.

(** *** The derived view stays fresh *)

Lemma fresh_inputs s1 s2 :
  notes s1 = notes s2 → filterBy s1 = filterBy s2 →
  selectedMonth s1 = selectedMonth s2 → selectedDate s1 = selectedDate s2 →
  sortBy s1 = sortBy s2 → sortDirection s1 = sortDirection s2 →
  filteredAndSortedNotes s1 = filteredAndSortedNotes s2 →
  fresh s1 → fresh s2.
Proof.
  unfold fresh. intros ? ? ? ? ? ? <- <-. symmetry. by apply derivedView_inputs.
Qed.

Lemma reducer_fresh s action s' :
  fresh s → noteCollectionReducer s action = Ok s' → fresh s'.
Proof.
  intros Hs. destruct action; simpl;
    try (by apply withFilteredAndSortedNotes_fresh);
    intros [= <-]; by apply (fresh_inputs s).
Qed.

Lemma initial_fresh init :
  (∀ getter direction, sorting_sort getter direction [] = []) →
  isInitialState init → fresh init.
Proof.
  intros Hsort (_ & _ & Hnotes & Hview & _ & Hcfg).
  apply derivedView_configured in Hcfg as [view Hinit].
  unfold fresh. rewrite Hinit, Hview. f_equal.
  unfold derivedView in Hinit. rewrite Hnotes in Hinit.
  destruct (FilterPredicate init); simplify_eq/=. apply Hsort.
Qed.

(** *** Ids stay unique under commands that bring no duplicate *)

Lemma ids_spread (m : NoteItem) (patch : NoteItemPatch) :
  p_id patch = None → id (spread m patch) = id m.
Proof. intros Hp. simpl. by rewrite Hp. Qed.

Lemma ids_patched pre post (m : NoteItem) (patch : NoteItemPatch) :
  p_id patch = None → ids (pre ++ spread m patch :: post) = ids (pre ++ m :: post).
Proof.
  intros Hp. unfold ids. rewrite !fmap_app, !fmap_cons. by rewrite ids_spread.
Qed.

Lemma update_uniqueIds s (note : NoteItem) (patch : NoteItemPatch) :
  p_id patch = None → uniqueIds s →
  uniqueIds (withNoteUpdate s (getIndexOfNote s note) patch).
Proof.
  intros Hp Hs.
  destruct (update_cases s note patch)
    as [[_ ->]|(pre & m & post & Hnotes & _ & _ & ->)]; [done|].
  unfold uniqueIds in *. simpl. by rewrite ids_patched, <-Hnotes.
Qed.

Lemma delete_uniqueIds s (note : NoteItem) :
  uniqueIds s → uniqueIds (withNoteDelete s (getIndexOfNote s note)).
Proof.
  intros Hs.
  destruct (delete_cases s note)
    as [[_ ->]|(pre & m & post & Hnotes & _ & _ & ->)]; [done|].
  unfold uniqueIds, ids in *. simpl. rewrite Hnotes in Hs.
  rewrite fmap_app in *. rewrite fmap_cons in Hs.
  apply NoDup_app in Hs as (Hpre & Hdisj & Hpost).
  apply NoDup_cons in Hpost as [_ Hpost].
  apply NoDup_app. split_and!; try done.
  intros x Hx Hx'. apply (Hdisj x Hx). by right.
Qed.

Lemma recompute_uniqueIds s s' :
  uniqueIds s → withFilteredAndSortedNotes s = Ok s' → uniqueIds s'.
Proof.
  intros Hs (Hnotes & _)%withFilteredAndSortedNotes_frame.
  unfold uniqueIds. by rewrite Hnotes.
Qed.

Lemma reducer_uniqueIds s action s' :
  uniqueIds s → uniquePayload s action →
  noteCollectionReducer s action = Ok s' → uniqueIds s'.
Proof.
  intros Hs Hallowed.
  destruct action; simpl in *;
    try (by intros [= <-]);
    apply recompute_uniqueIds; try done.
  - unfold uniqueIds, ids in *. simpl. rewrite fmap_app. simpl.
    apply NoDup_app. split_and!; [done| |apply NoDup_singleton].
    intros x Hx ->%list_elem_of_singleton. done.
  - by apply update_uniqueIds.
  - by apply delete_uniqueIds.
  - by apply update_uniqueIds.
Qed.

(** *** The selection stays consistent under commands that agree with it *)

Lemma update_selectionConsistent s (note : NoteItem) (patch : NoteItemPatch) :
  p_id patch = None → selectionConsistent s →
  selectionConsistent (withNoteUpdate s (getIndexOfNote s note) patch).
Proof.
  intros Hp Hs.
  destruct (update_cases s note patch)
    as [[_ ->]|(pre & m & post & Hnotes & Hpre & Hm & ->)]; [done|].
  unfold selectionConsistent, agreesWith in *. simpl.
  destruct (selectedNote s) as [selected|]; simpl; [|done].
  rewrite Hnotes in Hs. case_decide as Hsel.
  - rewrite (entryOf_first _ pre post m) in Hs by congruence. subst m.
    rewrite (entryOf_first _ pre post (spread selected patch)); try done.
    rewrite ids_spread by done. congruence.
  - rewrite entryOf_skip in Hs by done.
    rewrite entryOf_skip; [done|]. by rewrite ids_spread.
Qed.

Lemma delete_selectionConsistent s (note : NoteItem) :
  selectionConsistent s →
  selectionConsistent (withNoteDelete s (getIndexOfNote s note)).
Proof.
  intros Hs.
  destruct (delete_cases s note)
    as [[_ ->]|(pre & m & post & Hnotes & Hpre & Hm & ->)]; [done|].
  unfold selectionConsistent, agreesWith in *. simpl.
  destruct (selectedNote s) as [selected|]; simpl; [|done].
  rewrite Hnotes in Hs. case_decide as Hsel; [done|].
  by rewrite entryOf_skip in Hs.
Qed.

Lemma recompute_selectionConsistent s s' :
  selectionConsistent s → withFilteredAndSortedNotes s = Ok s' →
  selectionConsistent s'.
Proof.
  intros Hs (Hnotes & Hsel & _)%withFilteredAndSortedNotes_frame.
  unfold selectionConsistent. by rewrite Hnotes, Hsel.
Qed.

Lemma reducer_selectionConsistent s action s' :
  selectionConsistent s → reconciledPayload s action →
  noteCollectionReducer s action = Ok s' → selectionConsistent s'.
Proof.
  intros Hs Hallowed.
  destruct action; simpl in *;
    try (by intros [= <-]);
    apply recompute_selectionConsistent; try done.
  - by apply update_selectionConsistent.
  - by apply delete_selectionConsistent.
  - by apply update_selectionConsistent.
Qed.

End Commands.

Section Outcomes.
Context `{Collaborators}.

Implicit Types s init : NoteCollectionState.

Lemma outcome_impl s (r : result NoteCollectionState) (P Q : NoteCollectionState → Prop) :
  (∀ s', P s' → Q s') → outcome s r P → outcome s r Q.
Proof. intros HPQ. destruct r; simpl; [|done]. intros [? ?]. by auto. Qed.

Lemma outcome_update s (note m : NoteItem) (patch : NoteItemPatch) pre post :
  notes s = pre ++ m :: post → id note ∉ ids pre → id m = id note →
  outcome s
    (withFilteredAndSortedNotes (withNoteUpdate s (getIndexOfNote s note) patch))
    (λ s', notes s' = pre ++ spread m patch :: post ∧
           selectedNote s' = mirrored patch m (selectedNote s)).
Proof.
  intros Hnotes Hpre Hm.
  rewrite (getIndexOfNote_first s note m pre post) by done.
  rewrite (withNoteUpdate_first s patch m pre post) by done.
  by apply outcome_recompute.
Qed.

Lemma outcome_delete s (note m : NoteItem) pre post :
  notes s = pre ++ m :: post → id note ∉ ids pre → id m = id note →
  outcome s
    (withFilteredAndSortedNotes (withNoteDelete s (getIndexOfNote s note)))
    (λ s', notes s' = pre ++ post ∧
           selectedNote s' = cleared m (selectedNote s)).
Proof.
  intros Hnotes Hpre Hm.
  rewrite (getIndexOfNote_first s note m pre post) by done.
  rewrite (withNoteDelete_first s m pre post) by done.
  by apply outcome_recompute.
Qed.

Lemma unconfigured_throws s0 s1 :
  (filterConfigured s1 ↔ filterConfigured s0) → ¬ filterConfigured s0 →
  withFilteredAndSortedNotes s1 = Throw TypeError.
Proof.
  intros Hcfg Hs0. rewrite withFilteredAndSortedNotes_derivedView.
  assert (derivedView s1 = None) as ->; [|done].
  apply derivedView_unconfigured. by rewrite Hcfg.
Qed.

Lemma update_configured s (note : NoteItem) (patch : NoteItemPatch) :
  filterConfigured (withNoteUpdate s (getIndexOfNote s note) patch) ↔ filterConfigured s.
Proof.
  by destruct (update_cases s note patch) as [[_ ->]|(? & ? & ? & _ & _ & _ & ->)].
Qed.

Lemma delete_configured s (note : NoteItem) :
  filterConfigured (withNoteDelete s (getIndexOfNote s note)) ↔ filterConfigured s.
Proof.
  by destruct (delete_cases s note) as [[_ ->]|(? & ? & ? & _ & _ & _ & ->)].
Qed.

Lemma reachableVia_invariant allowed (I : NoteCollectionState → Prop) init s :
  I init →
  (∀ s1 action s2,
     I s1 → allowed s1 action → noteCollectionReducer s1 action = Ok s2 → I s2) →
  reachableVia allowed init s → I s.
Proof. intros Hinit Hstep. induction 1; by eauto. Qed.

End Outcomes.

(** ** Runs of commands *)

Section Runs.
Context `{Collaborators}.

Lemma run_reachableVia allowed init s0 actions s :
  reachableVia allowed init s0 →
  permitted allowed s0 actions →
  run s0 actions = Ok s →
  reachableVia allowed init s.
Proof.
  revert s0. induction actions as [|action rest IH]; simpl; intros s0 Hs0.
  - by intros _ [= <-].
  - intros [Hallowed Hrest].
    destruct (noteCollectionReducer s0 action) as [s1|] eqn:Hstep; [|done].
    apply (IH s1); [|done]. by eapply reachable_step.
Qed.

Lemma run_reachable init actions s :
  run init actions = Ok s → reachable init s.
Proof.
  intros Hrun. apply (run_reachableVia anyCommand init init actions);
    [constructor| |done].
  clear Hrun. revert init. induction actions as [|action rest IH]; simpl; [done|].
  intros init. split; [done|]. by destruct (noteCollectionReducer init action).
Qed.

End Runs.

(** ** The properties of the state engine *)

Section Properties.
Context `{Collaborators}.

Implicit Types s init : NoteCollectionState.

(** C1. In every state reachable from the initial state by any sequence
    of commands, the stored [filteredAndSortedNotes] is the view
    recomputed from the canonical [notes]: the filter predicate chosen by
    [filterBy], then the order of [sortBy] and [sortDirection].  The code's
    own recomputation, [withFilteredAndSortedNotes], returns the state as
    it is.  The initial state is empty and its filter mode has its
    selector; sorting the empty array gives the empty array. *)
Theorem derived_view_fresh init s :
  (∀ getter direction, sorting_sort getter direction [] = []) →
  isInitialState init →
  reachable init s →
  derivedView s = Some (filteredAndSortedNotes s) ∧
  withFilteredAndSortedNotes s = Ok s.
Proof.
  intros Hsort Hinit Hreach.
  assert (fresh s) as Hs.
  { eapply reachableVia_invariant; [by apply initial_fresh| |done].
    intros s1 action s2 Hs1 _. by apply reducer_fresh. }
  split; [done|by apply withFilteredAndSortedNotes_of_fresh].
Qed.

(** C2, amended.  In every state reachable from the initial state by
    commands in which each [LoadComplete] payload has pairwise distinct
    ids and each [AddNote] adds a note whose id is not in [notes] yet, no
    two entries of [notes] have the same [id]. *)
Theorem unique_ids_preserved init s :
  isInitialState init →
  reachableVia uniquePayload init s →
  NoDup (ids (notes s)).
Proof.
  intros (_ & _ & Hnotes & _) Hreach.
  apply (reachableVia_invariant uniquePayload uniqueIds init s); [|by apply reducer_uniqueIds|done].
  unfold uniqueIds. rewrite Hnotes. constructor.
Qed.

(** C3, amended.  In every state reachable from the initial state by
    commands whose payloads agree with the selection ([SelectNote] selects
    a note that is not in [notes] by id or is equal to its entry there;
    [LoadComplete] and [AddNote] bring no entry with the selected id that
    differs from the selected note): if [selectedNote] is non-null, its
    [id] does not occur in [notes], or it is equal to the entry of [notes]
    carrying that [id]. *)
Theorem selection_consistent init s (selected : NoteItem) :
  isInitialState init →
  reachableVia reconciledPayload init s →
  selectedNote s = Some selected →
  id selected ∉ ids (notes s) ∨ entryOf (notes s) selected = Some selected.
Proof.
  intros (_ & _ & _ & _ & Hnone & _) Hreach Hsel.
  assert (selectionConsistent s) as Hs.
  { apply (reachableVia_invariant reconciledPayload selectionConsistent init s);
      [|by apply reducer_selectionConsistent|done].
    unfold selectionConsistent. by rewrite Hnone. }
  unfold selectionConsistent, agreesWith in Hs. rewrite Hsel in Hs.
  destruct (entryOf (notes s) selected) as [entry|] eqn:Hentry.
  - right. by subst.
  - left. by apply entryOf_absent.
Qed.

(** C4, amended.  For every state whose stored view is fresh, as it is in
    every reachable state, and every [ChangeNoteTitle], [ChangeNoteStacks]
    or [DeleteNote] command whose payload note's [id] does not occur in
    [notes], the reducer returns the state unchanged and throws nothing. *)
Theorem absent_note_unchanged s (note : NoteItem)
    (title' contentFilePath' contentFileName' : string) (stacks : list string) :
  fresh s →
  id note ∉ ids (notes s) →
  noteCollectionReducer s
    (CHANGE_NOTE_TITLE note title' contentFilePath' contentFileName') = Ok s ∧
  noteCollectionReducer s (CHANGE_NOTE_STACKS note stacks) = Ok s ∧
  noteCollectionReducer s (DELETE_NOTE note) = Ok s.
Proof.
  intros Hs Hnote. simpl. rewrite getIndexOfNote_absent by done.
  rewrite !withNoteUpdate_absent, withNoteDelete_absent.
  by rewrite withFilteredAndSortedNotes_of_fresh.
Qed.

(** C5, amended.  For every state with a non-null [selectedNote],
    [DeleteNote] returns a state unless the filter mode lacks its selector.
    If the note's [id] is that of [selectedNote] and occurs in [notes], then
    [selectedNote] is null afterwards and the first entry carrying the id
    is gone, so that no entry carries it when the ids of [notes] were
    distinct.  If the note's [id] differs from that of [selectedNote],
    [selectedNote] is unchanged. *)
Theorem delete_clears_selection s (selected note : NoteItem) :
  selectedNote s = Some selected →
  outcome s (noteCollectionReducer s (DELETE_NOTE note))
    (λ s',
       (id note = id selected → id note ∈ ids (notes s) →
        selectedNote s' = None ∧
        (∃ pre m post, notes s = pre ++ m :: post ∧ (id note ∉ ids pre) ∧
           id m = id note ∧ notes s' = pre ++ post) ∧
        (uniqueIds s → id note ∉ ids (notes s'))) ∧
       (id note ≠ id selected → selectedNote s' = Some selected)).
Proof.
  intros Hsel. simpl.
  destruct (delete_cases s note)
    as [[Hout Heq]|(pre & m & post & Hnotes & Hpre & Hm & _)].
  - rewrite Heq. apply outcome_recompute; [done|]. intros view _. simpl.
    split; [done|]. by rewrite Hsel.
  - eapply outcome_impl; [|by apply (outcome_delete s note m pre post)].
    intros s' [Hnotes' Hsel']. simpl in *. rewrite Hsel in Hsel'. simpl in Hsel'.
    split.
    + intros Hid _. rewrite decide_True in Hsel' by congruence.
      split_and!; [done|by exists pre, m, post|].
      unfold uniqueIds, ids. rewrite Hnotes, Hnotes', !fmap_app, fmap_cons.
      rewrite Hm. intros (Hnodup & Hdisj & Hpost)%NoDup_app.
      apply NoDup_cons in Hpost as [Hpost _].
      rewrite not_elem_of_app. split; [done|]. done.
    + intros Hid. by rewrite decide_False in Hsel' by congruence.
Qed.

(** C6, amended.  For every state and every [ChangeNoteTitle] command
    whose payload note's [id] occurs in [notes]: if the filter mode lacks
    its selector the command throws and returns no state; in every other
    state it returns a state in which the first entry carrying the id has
    the payload's [title], [contentFilePath] and [contentFileName] and all
    its other fields as before, and every other entry is as before; a
    [selectedNote] with the same [id] gets the same three fields, any
    other [selectedNote] is unchanged.  [ChangeNoteStacks] does the same
    with [stackIds]. *)
Theorem change_note_patches s (note : NoteItem)
    (title' contentFilePath' contentFileName' : string) (stacks : list string) :
  id note ∈ ids (notes s) →
  ∃ pre m post,
    notes s = pre ++ m :: post ∧ (id note ∉ ids pre) ∧ id m = id note ∧
    outcome s
      (noteCollectionReducer s
         (CHANGE_NOTE_TITLE note title' contentFilePath' contentFileName'))
      (λ s',
         notes s' =
           pre ++ retitled m title' contentFilePath' contentFileName' :: post ∧
         selectedNote s' =
           match selectedNote s with
           | Some selected =>
               if decide (id selected = id note)
               then Some (retitled selected title' contentFilePath' contentFileName')
               else Some selected
           | None => None
           end) ∧
    outcome s (noteCollectionReducer s (CHANGE_NOTE_STACKS note stacks))
      (λ s',
         notes s' = pre ++ restacked m stacks :: post ∧
         selectedNote s' =
           match selectedNote s with
           | Some selected =>
               if decide (id selected = id note)
               then Some (restacked selected stacks) else Some selected
           | None => None
           end).
Proof.
  intros (pre & m & post & Hnotes & Hpre & Hm)%present_split.
  exists pre, m, post. split_and!; try done.
  - eapply outcome_impl; [|by apply (outcome_update s note m _ pre post)].
    intros s' [-> ->]. split; [done|]. unfold mirrored.
    destruct (selectedNote s) as [selected|]; [|done].
    rewrite Hm. by repeat case_decide.
  - eapply outcome_impl; [|by apply (outcome_update s note m _ pre post)].
    intros s' [-> ->]. split; [done|]. unfold mirrored.
    destruct (selectedNote s) as [selected|]; [|done].
    rewrite Hm. by repeat case_decide.
Qed.

(** C7. For every state, [SelectMonthFilter] returns a state with
    [filterBy = BY_MONTH], [selectedMonth] the year and month of the
    payload date and [selectedDate = null]; [SelectDateFilter] returns a
    state with [filterBy = BY_DATE], whatever [selectedMonth] was,
    [selectedDate] the year, month and day of the payload date, and
    [selectedMonth] as before. *)
Theorem select_filter s (date : Date) :
  (∃ s', noteCollectionReducer s (SELECT_MONTH_FILTER date) = Ok s' ∧
     filterBy s' = BY_MONTH ∧
     selectedMonth s' =
       Some {| m_year := getFullYear date; m_month := getMonth date |} ∧
     selectedDate s' = None) ∧
  (∃ s', noteCollectionReducer s (SELECT_DATE_FILTER date) = Ok s' ∧
     filterBy s' = BY_DATE ∧
     selectedDate s' =
       Some {| d_year := getFullYear date; d_month := getMonth date;
               d_date := getDate date |} ∧
     selectedMonth s' = selectedMonth s).
Proof.
  split; simpl; rewrite withFilteredAndSortedNotes_derivedView;
    unfold derivedView, FilterPredicate; simpl; by eexists.
Qed.

(** C8. In every state in which [filterBy] is [BY_MONTH] while
    [selectedMonth] is unset, or [filterBy] is [BY_DATE] while
    [selectedDate] is unset, recomputing the derived view throws, also when
    there are no notes to filter, and every command that recomputes the
    view under that configuration throws to its caller. *)
Theorem unset_selector_throws s :
  (filterBy s = BY_MONTH ∧ selectedMonth s = None) ∨
  (filterBy s = BY_DATE ∧ selectedDate s = None) →
  withFilteredAndSortedNotes s = Throw TypeError ∧
  ∀ action, recomputesAsConfigured action = true →
    noteCollectionReducer s action = Throw TypeError.
Proof.
  intros Hunset.
  assert (¬ filterConfigured s) as Hs.
  { unfold filterConfigured.
    destruct Hunset as [[-> ->]|[-> ->]]; by intros [? ?]. }
  split; [by apply (unconfigured_throws s)|].
  intros action Haction. destruct action; try done; simpl;
    apply (unconfigured_throws s); try done.
  - apply update_configured.
  - apply delete_configured.
  - apply update_configured.
Qed.

(** C9, amended.  For every state, [LoadComplete] throws and returns no
    state if the filter mode lacks its selector; in every other state it
    returns a state whose [notes] is the payload sequence, with
    [loaded = true] and [loading = false] and the derived view recomputed,
    and whose [selectedNote] is exactly the one before: the selection is
    neither cleared nor reconciled, whether or not the new [notes] has an
    entry with its [id]. *)
Theorem load_complete_keeps_selection s (payload_notes : list NoteItem) :
  outcome s (noteCollectionReducer s (LOAD_COLLECTION_COMPLETE payload_notes))
    (λ s',
       notes s' = payload_notes ∧ loaded s' = true ∧ loading s' = false ∧
       derivedView s' = Some (filteredAndSortedNotes s') ∧
       selectedNote s' = selectedNote s).
Proof.
  simpl. apply outcome_recompute; [done|].
  intros view Hview. simpl. by split_and!.
Qed.

(** C10, amended.  When [notes] has several entries with the [id] of the
    payload note: if the filter mode lacks its selector, [ChangeNoteTitle],
    [ChangeNoteStacks] and [DeleteNote] throw and return no state; in every
    other state [ChangeNoteTitle] and [ChangeNoteStacks] patch the first of
    the entries only and [DeleteNote] removes the first of them only, and
    whatever follows the first entry with the id, later entries with the
    same id included, is in [notes] afterwards as it was. *)
Theorem first_entry_only s (note m : NoteItem) (pre post : list NoteItem)
    (title' contentFilePath' contentFileName' : string) (stacks : list string) :
  notes s = pre ++ m :: post →
  id note ∉ ids pre →
  id m = id note →
  outcome s
    (noteCollectionReducer s
       (CHANGE_NOTE_TITLE note title' contentFilePath' contentFileName'))
    (λ s', notes s' =
             pre ++ retitled m title' contentFilePath' contentFileName' :: post) ∧
  outcome s (noteCollectionReducer s (CHANGE_NOTE_STACKS note stacks))
    (λ s', notes s' = pre ++ restacked m stacks :: post) ∧
  outcome s (noteCollectionReducer s (DELETE_NOTE note))
    (λ s', notes s' = pre ++ post).
Proof.
  intros Hnotes Hpre Hm. split_and!.
  - eapply outcome_impl; [|by apply (outcome_update s note m _ pre post)].
    by intros s' [-> _].
  - eapply outcome_impl; [|by apply (outcome_update s note m _ pre post)].
    by intros s' [-> _].
  - eapply outcome_impl; [|by apply (outcome_delete s note m pre post)].
    by intros s' [-> _].
Qed.

(** X1. Issuing [DeselectNote] twice in a row yields the same state as
    issuing it once. *)
Theorem deselect_idempotent s :
  run s [DESELECT_NOTE; DESELECT_NOTE] = run s [DESELECT_NOTE].
Proof. reflexivity. Qed.

End Properties.

(** ** The properties at work *)

(** Scenario 1 of the specification: by title ascending, then the
    direction switched. *)
Example scenario_sort_by_title :
  run Utc.unfilteredState
    [LOAD_COLLECTION_COMPLETE [Utc.noteB; Utc.noteA]] =
    Ok (set_filteredAndSortedNotes [Utc.noteA; Utc.noteB]
          (set_notes [Utc.noteB; Utc.noteA] (set_loaded true Utc.unfilteredState))) ∧
  run Utc.unfilteredState
    [LOAD_COLLECTION_COMPLETE [Utc.noteB; Utc.noteA]; CHANGE_SORT_DIRECTION DESC] =
    Ok (set_sortDirection DESC
          (set_filteredAndSortedNotes [Utc.noteB; Utc.noteA]
             (set_notes [Utc.noteB; Utc.noteA] (set_loaded true Utc.unfilteredState)))).
Proof. split; reflexivity. Qed.

(** Scenarios 2 and 3: the title change reaches the selection, the
    deletion clears it. *)
Example scenario_rename_then_delete :
  (s ← run Utc.unfilteredState
         [LOAD_COLLECTION_COMPLETE [Utc.noteA; Utc.noteB]; SELECT_NOTE Utc.noteA;
          CHANGE_NOTE_TITLE Utc.noteA "Alpha2" "/notes/a2.md" "a2.md"];
   Ok (title <$> notes s, title <$> selectedNote s)) =
    Ok (["Alpha2"; "Beta"], Some "Alpha2")
  ∧
  (s ← run Utc.unfilteredState
         [LOAD_COLLECTION_COMPLETE [Utc.noteA; Utc.noteB]; SELECT_NOTE Utc.noteA;
          DELETE_NOTE Utc.noteA];
   Ok (ids (notes s), selectedNote s)) =
    Ok (["b"], None).
Proof. split; reflexivity. Qed.

(** Scenario 4: the month filter on March 2024, then notes of February
    and of March loaded. *)
Example scenario_month_filter :
  run Utc.unfilteredState
    [SELECT_MONTH_FILTER (Utc.newDateYMD 2024 2 17);
     LOAD_COLLECTION_COMPLETE [Utc.noteA; Utc.noteB]] =
    Ok (set_filteredAndSortedNotes [Utc.noteB]
          (set_notes [Utc.noteA; Utc.noteB]
             (set_loaded true
                (set_selectedMonth (Some {| m_year := 2024; m_month := 2 |})
                   (set_filterBy BY_MONTH Utc.unfilteredState))))).
Proof. reflexivity. Qed.

(** C1 on the state after a load under the March filter. *)
Lemma derived_view_fresh_witness :
  (∀ getter direction, Utc.sort getter direction [] = []) ∧
  isInitialState Utc.initialState ∧
  reachable Utc.initialState Utc.loadedState ∧
  derivedView Utc.loadedState = Some (filteredAndSortedNotes Utc.loadedState) ∧
  withFilteredAndSortedNotes Utc.loadedState = Ok Utc.loadedState.
Proof.
  assert (∀ getter direction, Utc.sort getter direction [] = []) as Hsort
    by reflexivity.
  assert (isInitialState Utc.initialState) as Hinit
    by (repeat split; evaluated).
  assert (reachable Utc.initialState Utc.loadedState) as Hreach.
  { apply (run_reachable _ [LOAD_COLLECTION_COMPLETE [Utc.noteA; Utc.noteB]]).
    reflexivity. }
  split; [exact Hsort|]. split; [exact Hinit|]. split; [exact Hreach|].
  apply (@derived_view_fresh Utc.collaborators Utc.initialState Utc.loadedState Hsort Hinit Hreach).
Defined.

(** Against C2 as stated: the same note added twice is twice in [notes]. *)
Lemma duplicate_ids_reachable :
  isInitialState Utc.unfilteredState ∧
  reachable Utc.unfilteredState Utc.duplicatedState ∧
  ¬ NoDup (ids (notes Utc.duplicatedState)).
Proof.
  split; [repeat split; evaluated|]. split.
  - apply (run_reachable _ [ADD_NOTE Utc.noteA; ADD_NOTE Utc.noteA]). reflexivity.
  - evaluated.
Qed.

(** C2, amended, on two notes with different ids added in turn. *)
Lemma unique_ids_preserved_witness :
  isInitialState Utc.unfilteredState ∧
  reachableVia uniquePayload Utc.unfilteredState Utc.twoNotesState ∧
  NoDup (ids (notes Utc.twoNotesState)).
Proof.
  assert (isInitialState Utc.unfilteredState) as Hinit
    by (repeat split; evaluated).
  assert (reachableVia uniquePayload Utc.unfilteredState Utc.twoNotesState) as Hreach.
  { apply (run_reachableVia _ _ Utc.unfilteredState
             [ADD_NOTE Utc.noteA; ADD_NOTE Utc.noteB]);
      [constructor| |reflexivity].
    simpl. split_and!; evaluated. }
  split; [exact Hinit|]. split; [exact Hreach|].
  apply (@unique_ids_preserved Utc.collaborators Utc.unfilteredState Utc.twoNotesState Hinit Hreach).
Defined.

(** Against C3 as stated: a note is loaded and selected, then loaded again
    under a new title.  The selection has the id of the one entry of
    [notes] and not its fields. *)
Lemma stale_selection_reachable :
  isInitialState Utc.unfilteredState ∧
  reachable Utc.unfilteredState Utc.reloadedState ∧
  selectedNote Utc.reloadedState = Some Utc.noteA ∧
  notes Utc.reloadedState = [Utc.noteA_renamed] ∧
  id Utc.noteA_renamed = id Utc.noteA ∧
  Utc.noteA_renamed ≠ Utc.noteA.
Proof.
  split; [repeat split; evaluated|].
  split.
  { apply (run_reachable _
             [LOAD_COLLECTION_COMPLETE [Utc.noteA]; SELECT_NOTE Utc.noteA;
              LOAD_COLLECTION_COMPLETE [Utc.noteA_renamed]]).
    reflexivity. }
  split; [reflexivity|]. split; [reflexivity|]. split; [reflexivity|].
  intros Heq. apply (f_equal title) in Heq. vm_compute in Heq. discriminate.
Qed.

(** C3, amended, on a note that is loaded and then selected. *)
Lemma selection_consistent_witness :
  isInitialState Utc.unfilteredState ∧
  reachableVia reconciledPayload Utc.unfilteredState Utc.selectedState ∧
  selectedNote Utc.selectedState = Some Utc.noteA ∧
  ((id Utc.noteA ∉ ids (notes Utc.selectedState)) ∨
   entryOf (notes Utc.selectedState) Utc.noteA = Some Utc.noteA).
Proof.
  assert (isInitialState Utc.unfilteredState) as Hinit
    by (repeat split; evaluated).
  assert (reachableVia reconciledPayload Utc.unfilteredState Utc.selectedState)
    as Hreach.
  { apply (run_reachableVia _ _ Utc.unfilteredState
             [LOAD_COLLECTION_COMPLETE [Utc.noteA]; SELECT_NOTE Utc.noteA]);
      [constructor| |reflexivity].
    simpl. split_and!; evaluated. }
  split; [exact Hinit|]. split; [exact Hreach|]. split; [reflexivity|].
  apply (@selection_consistent Utc.collaborators Utc.unfilteredState Utc.selectedState Utc.noteA
           Hinit Hreach eq_refl).
Defined.

(** Against C4 as stated: the note "a" is not in [notes], and the title
    change returns a state with another view; where the date filter has no
    date, the deletion of a note that is not in [notes] throws. *)
Lemma absent_note_changes_state :
  (id Utc.noteA ∉ ids (notes Utc.staleViewState)) ∧
  noteCollectionReducer Utc.staleViewState
    (CHANGE_NOTE_TITLE Utc.noteA "Alpha2" "/notes/a2.md" "a2.md") =
    Ok Utc.unfilteredState ∧
  Utc.unfilteredState ≠ Utc.staleViewState ∧
  (id Utc.noteA ∉ ids (notes Utc.unconfiguredState)) ∧
  noteCollectionReducer Utc.unconfiguredState (DELETE_NOTE Utc.noteA) =
    Throw TypeError.
Proof.
  split; [evaluated|]. split; [reflexivity|]. split.
  { intros Heq. apply (f_equal filteredAndSortedNotes) in Heq. discriminate. }
  split; [evaluated|reflexivity].
Qed.

(** C4, amended, on a loaded state and a note "c" that is not in it. *)
Lemma absent_note_unchanged_witness :
  fresh Utc.loadedState ∧
  (id (Utc.note "c" "Gamma" Utc.T1) ∉ ids (notes Utc.loadedState)) ∧
  noteCollectionReducer Utc.loadedState
    (CHANGE_NOTE_TITLE (Utc.note "c" "Gamma" Utc.T1) "Delta" "/notes/d.md" "d.md") =
    Ok Utc.loadedState ∧
  noteCollectionReducer Utc.loadedState
    (CHANGE_NOTE_STACKS (Utc.note "c" "Gamma" Utc.T1) ["inbox"]) =
    Ok Utc.loadedState ∧
  noteCollectionReducer Utc.loadedState (DELETE_NOTE (Utc.note "c" "Gamma" Utc.T1)) =
    Ok Utc.loadedState.
Proof.
  assert (fresh Utc.loadedState) as Hfresh by reflexivity.
  assert (id (Utc.note "c" "Gamma" Utc.T1) ∉ ids (notes Utc.loadedState)) as Habsent
    by evaluated.
  split; [exact Hfresh|]. split; [exact Habsent|].
  apply (@absent_note_unchanged Utc.collaborators Utc.loadedState (Utc.note "c" "Gamma" Utc.T1)
           "Delta" "/notes/d.md" "d.md" ["inbox"] Hfresh Habsent).
Defined.

(** Against C5 as stated: two entries have the id "a" and the first is
    selected; its deletion clears the selection and leaves the second entry
    with the id. *)
Lemma delete_leaves_duplicate :
  reachable Utc.unfilteredState Utc.twinsState ∧
  selectedNote Utc.twinsState = Some Utc.noteA ∧
  id Utc.noteA ∈ ids (notes Utc.twinsState) ∧
  noteCollectionReducer Utc.twinsState (DELETE_NOTE Utc.noteA) =
    Ok Utc.twinsDeletedState ∧
  selectedNote Utc.twinsDeletedState = None ∧
  id Utc.noteA ∈ ids (notes Utc.twinsDeletedState).
Proof.
  split.
  { apply (run_reachable _
             [ADD_NOTE Utc.noteA; ADD_NOTE Utc.noteA_again; SELECT_NOTE Utc.noteA]).
    reflexivity. }
  split_and!; evaluated.
Qed.

(** C5, amended, on the deletion of the selected note. *)
Lemma delete_clears_selection_witness :
  selectedNote Utc.selectedState = Some Utc.noteA ∧
  noteCollectionReducer Utc.selectedState (DELETE_NOTE Utc.noteA) =
    Ok (set_selectedNote None
          (set_filteredAndSortedNotes [] (set_notes [] Utc.selectedState))) ∧
  outcome Utc.selectedState
    (noteCollectionReducer Utc.selectedState (DELETE_NOTE Utc.noteA))
    (λ s',
       (id Utc.noteA = id Utc.noteA → id Utc.noteA ∈ ids (notes Utc.selectedState) →
        selectedNote s' = None ∧
        (∃ pre m post, notes Utc.selectedState = pre ++ m :: post ∧
           (id Utc.noteA ∉ ids pre) ∧ id m = id Utc.noteA ∧ notes s' = pre ++ post) ∧
        (uniqueIds Utc.selectedState → id Utc.noteA ∉ ids (notes s'))) ∧
       (id Utc.noteA ≠ id Utc.noteA → selectedNote s' = Some Utc.noteA)).
Proof.
  split; [reflexivity|]. split; [reflexivity|].
  apply (@delete_clears_selection Utc.collaborators Utc.selectedState Utc.noteA Utc.noteA eq_refl).
Defined.

(** C6, amended, on the title change of the selected note. *)
Lemma change_note_patches_witness :
  id Utc.noteA ∈ ids (notes Utc.selectedState) ∧
  noteCollectionReducer Utc.selectedState
    (CHANGE_NOTE_TITLE Utc.noteA "Alpha2" "/notes/a2.md" "a2.md") =
    Ok (set_selectedNote (Some (retitled Utc.noteA "Alpha2" "/notes/a2.md" "a2.md"))
          (set_filteredAndSortedNotes
             [retitled Utc.noteA "Alpha2" "/notes/a2.md" "a2.md"]
             (set_notes [retitled Utc.noteA "Alpha2" "/notes/a2.md" "a2.md"]
                Utc.selectedState))) ∧
  ∃ pre m post,
    notes Utc.selectedState = pre ++ m :: post ∧
    (id Utc.noteA ∉ ids pre) ∧ id m = id Utc.noteA ∧
    outcome Utc.selectedState
      (noteCollectionReducer Utc.selectedState
         (CHANGE_NOTE_TITLE Utc.noteA "Alpha2" "/notes/a2.md" "a2.md"))
      (λ s',
         notes s' = pre ++ retitled m "Alpha2" "/notes/a2.md" "a2.md" :: post ∧
         selectedNote s' =
           match selectedNote Utc.selectedState with
           | Some selected =>
               if decide (id selected = id Utc.noteA)
               then Some (retitled selected "Alpha2" "/notes/a2.md" "a2.md")
               else Some selected
           | None => None
           end) ∧
    outcome Utc.selectedState
      (noteCollectionReducer Utc.selectedState
         (CHANGE_NOTE_STACKS Utc.noteA ["inbox"]))
      (λ s',
         notes s' = pre ++ restacked m ["inbox"] :: post ∧
         selectedNote s' =
           match selectedNote Utc.selectedState with
           | Some selected =>
               if decide (id selected = id Utc.noteA)
               then Some (restacked selected ["inbox"]) else Some selected
           | None => None
           end).
Proof.
  assert (id Utc.noteA ∈ ids (notes Utc.selectedState)) as Hpresent by evaluated.
  split; [exact Hpresent|]. split; [reflexivity|].
  apply (@change_note_patches Utc.collaborators Utc.selectedState Utc.noteA
           "Alpha2" "/notes/a2.md" "a2.md" ["inbox"] Hpresent).
Defined.

(** C8 on the date filter without a date, with no notes at all. *)
Lemma unset_selector_throws_witness :
  ((filterBy Utc.unconfiguredState = BY_MONTH ∧
    selectedMonth Utc.unconfiguredState = None) ∨
   (filterBy Utc.unconfiguredState = BY_DATE ∧
    selectedDate Utc.unconfiguredState = None)) ∧
  notes Utc.unconfiguredState = [] ∧
  withFilteredAndSortedNotes Utc.unconfiguredState = Throw TypeError ∧
  ∀ action, recomputesAsConfigured action = true →
    noteCollectionReducer Utc.unconfiguredState action = Throw TypeError.
Proof.
  assert ((filterBy Utc.unconfiguredState = BY_MONTH ∧
           selectedMonth Utc.unconfiguredState = None) ∨
          (filterBy Utc.unconfiguredState = BY_DATE ∧
           selectedDate Utc.unconfiguredState = None)) as Hunset
    by (right; split; reflexivity).
  split; [exact Hunset|]. split; [reflexivity|].
  apply (@unset_selector_throws Utc.collaborators Utc.unconfiguredState Hunset).
Defined.

(** C10, amended, on two entries with the id "a". *)
Lemma first_entry_only_witness :
  notes Utc.twinsState = [] ++ Utc.noteA :: [Utc.noteA_again] ∧
  (id Utc.noteA_again ∉ ids []) ∧
  id Utc.noteA = id Utc.noteA_again ∧
  outcome Utc.twinsState
    (noteCollectionReducer Utc.twinsState
       (CHANGE_NOTE_TITLE Utc.noteA_again "Alpha2" "/notes/a2.md" "a2.md"))
    (λ s', notes s' =
             [] ++ retitled Utc.noteA "Alpha2" "/notes/a2.md" "a2.md"
                :: [Utc.noteA_again]) ∧
  outcome Utc.twinsState
    (noteCollectionReducer Utc.twinsState
       (CHANGE_NOTE_STACKS Utc.noteA_again ["inbox"]))
    (λ s', notes s' = [] ++ restacked Utc.noteA ["inbox"] :: [Utc.noteA_again]) ∧
  outcome Utc.twinsState
    (noteCollectionReducer Utc.twinsState (DELETE_NOTE Utc.noteA_again))
    (λ s', notes s' = [] ++ [Utc.noteA_again]).
Proof.
  assert (id Utc.noteA_again ∉ ids []) as Hpre by evaluated.
  split; [reflexivity|]. split; [exact Hpre|]. split; [reflexivity|].
  apply (@first_entry_only Utc.collaborators Utc.twinsState Utc.noteA_again
           Utc.noteA [] [Utc.noteA_again] "Alpha2" "/notes/a2.md" "a2.md" ["inbox"]
           eq_refl Hpre eq_refl).
Defined.

(** ** The date filter without a date, with notes *)

(** The note "a" in a state whose date filter has no date. *)
Definition unconfiguredWithNote : NoteCollectionState :=
  set_notes [Utc.noteA] Utc.unconfiguredState.

(** Two entries with the id "a", the first selected, under the date filter
    without a date. *)
Definition unconfiguredTwins : NoteCollectionState :=
  set_filterBy BY_DATE Utc.twinsState.

(** Against C6 as stated: the note is in [notes], and the title change and
    the stacks change throw; no entry is patched. *)
Lemma patch_throws_unconfigured :
  id Utc.noteA ∈ ids (notes unconfiguredWithNote) ∧
  noteCollectionReducer unconfiguredWithNote
    (CHANGE_NOTE_TITLE Utc.noteA "Alpha2" "/notes/a2.md" "a2.md") =
    Throw TypeError ∧
  noteCollectionReducer unconfiguredWithNote
    (CHANGE_NOTE_STACKS Utc.noteA ["inbox"]) = Throw TypeError.
Proof. split; [evaluated|]. split; reflexivity. Qed.

(** Against C9 as stated: the load throws; [notes] is not replaced and
    the flags are not set. *)
Lemma load_complete_throws_unconfigured :
  filterBy Utc.unconfiguredState = BY_DATE ∧
  selectedDate Utc.unconfiguredState = None ∧
  noteCollectionReducer Utc.unconfiguredState
    (LOAD_COLLECTION_COMPLETE [Utc.noteA; Utc.noteB]) = Throw TypeError.
Proof. split; [reflexivity|]. split; reflexivity. Qed.

(** Against C10 as stated: [notes] has two entries with the id of the
    note, and the three commands throw; nothing is patched or removed. *)
Lemma first_entry_throws_unconfigured :
  notes unconfiguredTwins = [Utc.noteA; Utc.noteA_again] ∧
  id Utc.noteA = id Utc.noteA_again ∧
  noteCollectionReducer unconfiguredTwins
    (CHANGE_NOTE_TITLE Utc.noteA "Alpha2" "/notes/a2.md" "a2.md") =
    Throw TypeError ∧
  noteCollectionReducer unconfiguredTwins
    (CHANGE_NOTE_STACKS Utc.noteA ["inbox"]) = Throw TypeError ∧
  noteCollectionReducer unconfiguredTwins (DELETE_NOTE Utc.noteA) =
    Throw TypeError.
Proof. split; [reflexivity|]. split; [reflexivity|]. split_and!; reflexivity. Qed.

(** ** More of the reducer: how its commands compose *)

(** [{ ...first, ...second }] of two patches: [second] wins where both
    have a field. *)
Definition overlay (first second : NoteItemPatch) : NoteItemPatch :=
  {| p_id := from_option Some (p_id first) (p_id second);
     p_title := from_option Some (p_title first) (p_title second);
     p_createdDatetime :=
       from_option Some (p_createdDatetime first) (p_createdDatetime second);
     p_contentFilePath :=
       from_option Some (p_contentFilePath first) (p_contentFilePath second);
     p_contentFileName :=
       from_option Some (p_contentFileName first) (p_contentFileName second);
     p_stackIds := from_option Some (p_stackIds first) (p_stackIds second);
     p_label := from_option Some (p_label first) (p_label second) |}.

Section Composition.
Context `{Collaborators}.

Implicit Types s init : NoteCollectionState.

Lemma spread_spread (m : NoteItem) (first second : NoteItemPatch) :
  spread (spread m first) second = spread m (overlay first second).
Proof.
  destruct first as [[?|] [?|] [?|] [?|] [?|] [?|] [?|]],
    second as [[?|] [?|] [?|] [?|] [?|] [?|] [?|]]; reflexivity.
Qed.

(** The stored view does not matter to a recomputation. *)
Lemma recompute_overwrites s (view : list NoteItem) :
  withFilteredAndSortedNotes (set_filteredAndSortedNotes view s) =
  withFilteredAndSortedNotes s.
Proof. by rewrite !withFilteredAndSortedNotes_derivedView. Qed.

Lemma withNoteUpdate_view s (view : list NoteItem) (index : Z) (patch : NoteItemPatch) :
  withNoteUpdate (set_filteredAndSortedNotes view s) index patch =
  set_filteredAndSortedNotes view (withNoteUpdate s index patch).
Proof.
  unfold withNoteUpdate, isIndexOfNoteIsSelectedNote. simpl.
  destruct (array_get (notes s) index); [|done].
  by destruct (selectedNote s) as [selected|]; [case_bool_decide|].
Qed.

Lemma withNoteDelete_view s (view : list NoteItem) (index : Z) :
  withNoteDelete (set_filteredAndSortedNotes view s) index =
  set_filteredAndSortedNotes view (withNoteDelete s index).
Proof.
  unfold withNoteDelete, isIndexOfNoteIsSelectedNote. simpl.
  destruct (array_get (notes s) index); [|done].
  by destruct (selectedNote s) as [selected|]; [case_bool_decide|].
Qed.

(** Two patches of the entry of one note are the patch of both. *)
Lemma update_update s (note : NoteItem) (first second : NoteItemPatch) :
  p_id first = None →
  withNoteUpdate (withNoteUpdate s (getIndexOfNote s note) first)
    (getIndexOfNote (withNoteUpdate s (getIndexOfNote s note) first) note) second =
  withNoteUpdate s (getIndexOfNote s note) (overlay first second).
Proof.
  intros Hfirst.
  destruct (update_cases s note first)
    as [[Hout ->]|(pre & m & post & Hnotes & Hpre & Hm & ->)].
  - rewrite getIndexOfNote_absent by done. by rewrite !withNoteUpdate_absent.
  - rewrite (getIndexOfNote_first s note m pre post) by done.
    rewrite (withNoteUpdate_first s _ m pre post) by done.
    rewrite (getIndexOfNote_first _ note (spread m first) pre post);
      [|done|done|by rewrite ids_spread].
    rewrite (withNoteUpdate_first _ second (spread m first) pre post) by done.
    simpl. rewrite spread_spread. unfold mirrored.
    destruct (selectedNote s) as [selected|]; simpl; [|done].
    rewrite Hfirst. simpl. case_decide; simpl.
    + rewrite Hfirst. simpl. rewrite decide_True by done.
      by rewrite spread_spread.
    + by rewrite decide_False by done.
Qed.

Lemma run_two s (a b : NoteCollectionAction) :
  run s [a; b] = (s' ← noteCollectionReducer s a; noteCollectionReducer s' b).
Proof.
  simpl. destruct (noteCollectionReducer s a) as [s'|]; simpl; [|done].
  by destruct (noteCollectionReducer s' b).
Qed.

Lemma run_one s (a : NoteCollectionAction) :
  run s [a] = noteCollectionReducer s a.
Proof. simpl. by destruct (noteCollectionReducer s a). Qed.

(** Two patching commands on one note, dispatched in turn. *)
Lemma recompute_update_twice s (note : NoteItem) (first second : NoteItemPatch) :
  p_id first = None →
  (s' ← withFilteredAndSortedNotes (withNoteUpdate s (getIndexOfNote s note) first);
   withFilteredAndSortedNotes (withNoteUpdate s' (getIndexOfNote s' note) second)) =
  withFilteredAndSortedNotes
    (withNoteUpdate s (getIndexOfNote s note) (overlay first second)).
Proof.
  intros Hfirst.
  rewrite (withFilteredAndSortedNotes_derivedView (withNoteUpdate s _ first)).
  destruct (derivedView (withNoteUpdate s (getIndexOfNote s note) first))
    as [view|] eqn:Hview; simpl.
  - change (getIndexOfNote (set_filteredAndSortedNotes view ?x) note)
      with (getIndexOfNote x note).
    rewrite withNoteUpdate_view, recompute_overwrites.
    by rewrite (update_update s note first second Hfirst).
  - symmetry. apply (unconfigured_throws s); [apply update_configured|].
    rewrite <-(update_configured s note first). by apply derivedView_unconfigured.
Qed.

End Composition.

Section MoreProperties.
Context `{Collaborators}.

Implicit Types s init : NoteCollectionState.

Lemma recompute_returns s :
  filterConfigured s →
  ∃ s', withFilteredAndSortedNotes s = Ok s' ∧ filterConfigured s'.
Proof.
  intros [view Hview]%derivedView_configured.
  rewrite withFilteredAndSortedNotes_derivedView, Hview.
  eexists. split; [done|]. apply derivedView_configured. by exists view.
Qed.

Lemma configured_returns s (action : NoteCollectionAction) :
  filterConfigured s →
  ∃ s', noteCollectionReducer s action = Ok s' ∧ filterConfigured s'.
Proof.
  intros Hs. destruct action; simpl;
    try (by eexists);
    try (by apply recompute_returns).
  - apply recompute_returns. unfold filterConfigured. simpl. by eexists.
  - apply recompute_returns. unfold filterConfigured. simpl. by eexists.
  - apply recompute_returns. by apply update_configured.
  - apply recompute_returns. by apply delete_configured.
  - apply recompute_returns. by apply update_configured.
Qed.

(** X2. In a state reachable from the initial state no command throws:
    the reducer returns a state for every action, and the filter mode of
    that state has its selector again. *)
Theorem reachable_never_throws init s (action : NoteCollectionAction) :
  isInitialState init →
  reachable init s →
  ∃ s', noteCollectionReducer s action = Ok s' ∧ filterConfigured s'.
Proof.
  intros (_ & _ & _ & _ & _ & Hinit) Hreach.
  apply configured_returns.
  apply (reachableVia_invariant anyCommand filterConfigured init s); [done| |done].
  intros s1 a s2 Hs1 _ Hstep.
  destruct (configured_returns s1 a Hs1) as (s2' & Hstep' & Hs2). congruence.
Qed.

Lemma filter_sublist (p : NoteItem → bool) (l : list NoteItem) :
  List.filter p l `sublist_of` l.
Proof.
  induction l as [|x l IH]; simpl; [constructor|].
  destruct (p x); by constructor.
Qed.

(** X3. With a sort that rearranges its input, the view a recomputation
    stores is a rearrangement of the notes that pass the filter: a note is
    in the view exactly when it is in [notes] and passes, the view is never
    longer than [notes], and without a filter it is a rearrangement of all
    of [notes]. *)
Theorem view_rearranges_passing_notes s s' :
  (∀ getter direction l, sorting_sort getter direction l ≡ₚ l) →
  withFilteredAndSortedNotes s = Ok s' →
  ∃ passes,
    FilterPredicate s = Some passes ∧
    filteredAndSortedNotes s' ≡ₚ List.filter passes (notes s) ∧
    (∀ note, note ∈ filteredAndSortedNotes s' ↔ note ∈ notes s ∧ passes note = true) ∧
    (length (filteredAndSortedNotes s') ≤ length (notes s))%nat ∧
    (filterBy s = NONE → filteredAndSortedNotes s' ≡ₚ notes s).
Proof.
  intros Hsort (view & Hview & ->)%withFilteredAndSortedNotes_Ok.
  unfold derivedView in Hview.
  destruct (FilterPredicate s) as [passes|] eqn:Hpasses; [|done].
  simpl in Hview. injection Hview as <-. exists passes. simpl.
  unfold OrderingStrategy. split_and!; try done.
  - intros note. rewrite Hsort, !list_elem_of_In, filter_In. done.
  - rewrite Hsort. apply sublist_length, filter_sublist.
  - intros Hnone. unfold FilterPredicate in Hpasses. rewrite Hnone in Hpasses.
    injection Hpasses as <-. by rewrite Hsort, filter_all.
Qed.

(** X4. A recomputation is idempotent: recomputing the view of the state
    a recomputation returned returns that state. *)
Theorem recompute_idempotent s s' :
  withFilteredAndSortedNotes s = Ok s' →
  withFilteredAndSortedNotes s' = Ok s'.
Proof.
  intros Hs'. by apply withFilteredAndSortedNotes_of_fresh,
    (withFilteredAndSortedNotes_fresh s).
Qed.

(** X5. Of two [ChangeNoteTitle] commands on one note dispatched in turn
    the second wins: the result, a state or the error, is that of the
    second command alone. *)
Theorem title_change_last_wins s (note : NoteItem)
    (title1 path1 name1 title2 path2 name2 : string) :
  run s [CHANGE_NOTE_TITLE note title1 path1 name1;
         CHANGE_NOTE_TITLE note title2 path2 name2] =
  run s [CHANGE_NOTE_TITLE note title2 path2 name2].
Proof.
  rewrite run_two, run_one. simpl.
  by rewrite recompute_update_twice.
Qed.

(** X6. A title change and a stacks change of one note commute: both
    orders give the same result, a state or the error. *)
Theorem title_and_stacks_commute s (note : NoteItem)
    (title' contentFilePath' contentFileName' : string) (stacks : list string) :
  run s [CHANGE_NOTE_TITLE note title' contentFilePath' contentFileName';
         CHANGE_NOTE_STACKS note stacks] =
  run s [CHANGE_NOTE_STACKS note stacks;
         CHANGE_NOTE_TITLE note title' contentFilePath' contentFileName'].
Proof.
  rewrite !run_two. simpl.
  by rewrite !recompute_update_twice.
Qed.

(** X7. Adding a note whose id is new and deleting it again restores the
    state, when the view was fresh and the selection does not carry the
    id of the note. *)
Theorem add_then_delete_restores s (note : NoteItem) :
  fresh s →
  id note ∉ ids (notes s) →
  (∀ selected, selectedNote s = Some selected → id selected ≠ id note) →
  run s [ADD_NOTE note; DELETE_NOTE note] = Ok s.
Proof.
  intros Hfresh Hnew Hsel. rewrite run_two. simpl.
  rewrite (withFilteredAndSortedNotes_derivedView (set_notes _ s)).
  destruct (derivedView (set_notes (notes s ++ [note]) s)) as [view|] eqn:Hview.
  - simpl.
    change (getIndexOfNote (set_filteredAndSortedNotes view ?x) note)
      with (getIndexOfNote x note).
    rewrite withNoteDelete_view, recompute_overwrites.
    rewrite (getIndexOfNote_first _ note note (notes s) []) by done.
    rewrite (withNoteDelete_first _ note (notes s) []) by done.
    simpl. rewrite app_nil_r.
    assert (cleared note (selectedNote s) = selectedNote s) as ->.
    { unfold cleared. destruct (selectedNote s) as [selected|] eqn:Hs; [|done].
      rewrite decide_False; [done|]. intros Heq. by apply (Hsel selected). }
    etrans; [|exact (withFilteredAndSortedNotes_of_fresh s Hfresh)].
    f_equal; by destruct s.
  - apply derivedView_unconfigured in Hview. destruct Hview.
    exact (fresh_configured s Hfresh).
Qed.

(** X8. With pairwise distinct ids in [notes], deleting a note twice is
    deleting it once: the second [DeleteNote] finds nothing and changes
    nothing. *)
Theorem delete_twice s (note : NoteItem) :
  uniqueIds s →
  run s [DELETE_NOTE note; DELETE_NOTE note] = run s [DELETE_NOTE note].
Proof.
  intros Hunique. rewrite run_two, run_one. simpl.
  destruct (withFilteredAndSortedNotes (withNoteDelete s (getIndexOfNote s note)))
    as [s'|] eqn:Hs'; simpl; [|done].
  assert (id note ∉ ids (notes s')) as Hgone.
  { apply withFilteredAndSortedNotes_frame in Hs' as (-> & _).
    destruct (delete_cases s note)
      as [[Hout ->]|(pre & m & post & Hnotes & Hpre & Hm & ->)]; [done|].
    simpl. unfold uniqueIds, ids in Hunique. unfold ids.
    rewrite Hnotes, fmap_app, fmap_cons, Hm in Hunique.
    apply NoDup_app in Hunique as (_ & _ & [Hpost _]%NoDup_cons).
    rewrite fmap_app, not_elem_of_app. done. }
  rewrite getIndexOfNote_absent, withNoteDelete_absent by done.
  by apply withFilteredAndSortedNotes_of_fresh,
    (withFilteredAndSortedNotes_fresh (withNoteDelete s (getIndexOfNote s note))).
Qed.

(** X9. [ChangeSortBy] and [ChangeSortDirection] commute: both orders give
    the same result, a state or the error. *)
Theorem sort_commands_commute s
    (by_ : NoteCollectionSortBy) (direction : SortDirection) :
  run s [CHANGE_SORT_ORDER by_; CHANGE_SORT_DIRECTION direction] =
  run s [CHANGE_SORT_DIRECTION direction; CHANGE_SORT_ORDER by_].
Proof.
  rewrite !run_two. simpl. rewrite !withFilteredAndSortedNotes_derivedView.
  unfold derivedView. simpl.
  change (FilterPredicate (set_sortBy by_ s)) with (FilterPredicate s).
  change (FilterPredicate (set_sortDirection direction s)) with (FilterPredicate s).
  destruct (FilterPredicate s) as [passes|] eqn:Hpasses; simpl; [|done].
  rewrite !withFilteredAndSortedNotes_derivedView. unfold derivedView. simpl.
  change (FilterPredicate (set_sortDirection direction (set_filteredAndSortedNotes ?v (set_sortBy by_ s))))
    with (FilterPredicate s).
  change (FilterPredicate (set_sortBy by_ (set_filteredAndSortedNotes ?v (set_sortDirection direction s))))
    with (FilterPredicate s).
  by rewrite Hpasses.
Qed.

(** X10. Once [loaded] is set no command resets it: it is set in every
    state reachable from a state in which it is set. *)
Theorem loaded_stays s s' :
  loaded s = true →
  reachable s s' →
  loaded s' = true.
Proof.
  intros Hs. apply (reachableVia_invariant anyCommand (λ x, loaded x = true)); [done|].
  intros s1 action s2 Hs1 _.
  destruct action; simpl;
    try (by intros [= <-]);
    intros (_ & _ & _ & -> & _)%withFilteredAndSortedNotes_frame; try done.
  - by destruct (update_cases s1 payload_note
        (titlePatch payload_title payload_contentFilePath payload_contentFileName))
      as [[_ ->]|(? & ? & ? & _ & _ & _ & ->)].
  - by destruct (delete_cases s1 payload_note)
      as [[_ ->]|(? & ? & ? & _ & _ & _ & ->)].
  - by destruct (update_cases s1 payload_note (stacksPatch payload_stacks))
      as [[_ ->]|(? & ? & ? & _ & _ & _ & ->)].
Qed.

(** X11. A title change and a stacks change never add, remove or reorder
    notes: the ids of [notes] are afterwards what they were, in the same
    order. *)
Theorem patch_keeps_ids s (note : NoteItem)
    (title' contentFilePath' contentFileName' : string) (stacks : list string) :
  outcome s
    (noteCollectionReducer s
       (CHANGE_NOTE_TITLE note title' contentFilePath' contentFileName'))
    (λ s', ids (notes s') = ids (notes s)) ∧
  outcome s (noteCollectionReducer s (CHANGE_NOTE_STACKS note stacks))
    (λ s', ids (notes s') = ids (notes s)).
Proof.
  split; simpl.
  - apply outcome_recompute; [apply update_configured|]. intros view _. simpl.
    destruct (update_cases s note
                (titlePatch title' contentFilePath' contentFileName'))
      as [[_ ->]|(pre & m & post & Hnotes & _ & _ & ->)]; [done|].
    simpl. by rewrite ids_patched, Hnotes.
  - apply outcome_recompute; [apply update_configured|]. intros view _. simpl.
    destruct (update_cases s note (stacksPatch stacks))
      as [[_ ->]|(pre & m & post & Hnotes & _ & _ & ->)]; [done|].
    simpl. by rewrite ids_patched, Hnotes.
Qed.

(** X12. [getIndexOfNote] returns [-1] exactly when no entry has the id of
    the note; any other result is an index into [notes], the entry there
    has the id, and no entry before it has. *)
Theorem getIndexOfNote_bounds s (note : NoteItem) :
  -1 ≤ getIndexOfNote s note < Z.of_nat (length (notes s)) ∧
  (getIndexOfNote s note = -1 ↔ id note ∉ ids (notes s)) ∧
  (0 ≤ getIndexOfNote s note →
   ∃ entry, array_get (notes s) (getIndexOfNote s note) = Some entry ∧
            id entry = id note ∧
            id note ∉ ids (take (Z.to_nat (getIndexOfNote s note)) (notes s))).
Proof.
  destruct (decide (id note ∈ ids (notes s))) as [Hin|Hout].
  - apply present_split in Hin as Hsplit.
    destruct Hsplit as (pre & m & post & Hnotes & Hpre & Hm).
    rewrite (getIndexOfNote_first s note m pre post) by done.
    rewrite Hnotes, length_app. simpl. split_and!; [lia|lia| |].
    + split; [lia|]. intros Hout. by rewrite Hnotes in Hin.
    + intros _. exists m. rewrite lookup_first, Nat2Z.id, take_app_length. done.
  - rewrite getIndexOfNote_absent by done. split_and!; [lia|lia|done|lia].
Qed.

End MoreProperties.

(** The insertion sort of the examples rearranges its input. *)
Lemma insertItem_rearranges (cmp : NoteItem → NoteItem → comparison)
    (x : NoteItem) (sorted : list NoteItem) :
  Utc.insertItem cmp x sorted ≡ₚ x :: sorted.
Proof.
  induction sorted as [|y rest IH]; simpl; [done|].
  destruct (cmp x y); try done; rewrite IH; apply Permutation_swap.
Qed.

Lemma sort_rearranges (getter : NoteItem → IndexProp) (direction : SortDirection)
    (items : list NoteItem) :
  Utc.sort getter direction items ≡ₚ items.
Proof.
  unfold Utc.sort.
  assert (∀ sorted,
    foldl (λ sorted x, Utc.insertItem (Utc.compareItems getter direction) x sorted)
      sorted items ≡ₚ sorted ++ items) as Hfold.
  { induction items as [|x items IH]; intros sorted; simpl.
    - by rewrite app_nil_r.
    - rewrite IH, insertItem_rearranges. apply Permutation_middle. }
  apply (Hfold []).
Qed.

(** X2 on the state after a load: a deletion returns a state. *)
Lemma reachable_never_throws_witness :
  isInitialState Utc.initialState ∧
  reachable Utc.initialState Utc.loadedState ∧
  ∃ s', noteCollectionReducer Utc.loadedState (DELETE_NOTE Utc.noteA) = Ok s' ∧
        filterConfigured s'.
Proof.
  assert (isInitialState Utc.initialState) as Hinit
    by (repeat split; evaluated).
  assert (reachable Utc.initialState Utc.loadedState) as Hreach.
  { apply (run_reachable _ [LOAD_COLLECTION_COMPLETE [Utc.noteA; Utc.noteB]]).
    reflexivity. }
  split; [exact Hinit|]. split; [exact Hreach|].
  apply (@reachable_never_throws Utc.collaborators Utc.initialState Utc.loadedState
           (DELETE_NOTE Utc.noteA) Hinit Hreach).
Defined.

(** X3 on two notes under the March filter. *)
Lemma view_rearranges_passing_notes_witness :
  (∀ getter direction l, Utc.sort getter direction l ≡ₚ l) ∧
  withFilteredAndSortedNotes Utc.loadedState = Ok Utc.loadedState ∧
  ∃ passes,
    FilterPredicate Utc.loadedState = Some passes ∧
    filteredAndSortedNotes Utc.loadedState ≡ₚ
      List.filter passes (notes Utc.loadedState) ∧
    (∀ note, note ∈ filteredAndSortedNotes Utc.loadedState ↔
             note ∈ notes Utc.loadedState ∧ passes note = true) ∧
    (length (filteredAndSortedNotes Utc.loadedState) ≤
       length (notes Utc.loadedState))%nat ∧
    (filterBy Utc.loadedState = NONE →
     filteredAndSortedNotes Utc.loadedState ≡ₚ notes Utc.loadedState).
Proof.
  split; [exact sort_rearranges|]. split; [reflexivity|].
  apply (@view_rearranges_passing_notes Utc.collaborators
           Utc.loadedState Utc.loadedState sort_rearranges eq_refl).
Defined.

(** X4 on the recomputation of a stale view. *)
Lemma recompute_idempotent_witness :
  withFilteredAndSortedNotes Utc.staleViewState = Ok Utc.unfilteredState ∧
  withFilteredAndSortedNotes Utc.unfilteredState = Ok Utc.unfilteredState.
Proof.
  split; [reflexivity|].
  apply (@recompute_idempotent Utc.collaborators
           Utc.staleViewState Utc.unfilteredState eq_refl).
Defined.

(** X7 on the note "b" added to a collection that has "a" selected. *)
Lemma add_then_delete_restores_witness :
  fresh Utc.selectedState ∧
  (id Utc.noteB ∉ ids (notes Utc.selectedState)) ∧
  (∀ selected, selectedNote Utc.selectedState = Some selected →
               id selected ≠ id Utc.noteB) ∧
  run Utc.selectedState [ADD_NOTE Utc.noteB; DELETE_NOTE Utc.noteB] =
    Ok Utc.selectedState.
Proof.
  assert (fresh Utc.selectedState) as Hfresh by reflexivity.
  assert (id Utc.noteB ∉ ids (notes Utc.selectedState)) as Hnew by evaluated.
  assert (∀ selected, selectedNote Utc.selectedState = Some selected →
                      id selected ≠ id Utc.noteB) as Hsel.
  { intros selected [= <-]. discriminate. }
  split; [exact Hfresh|]. split; [exact Hnew|]. split; [exact Hsel|].
  apply (@add_then_delete_restores Utc.collaborators Utc.selectedState Utc.noteB
           Hfresh Hnew Hsel).
Defined.

(** X8 on two notes with different ids. *)
Lemma delete_twice_witness :
  uniqueIds Utc.twoNotesState ∧
  run Utc.twoNotesState [DELETE_NOTE Utc.noteA; DELETE_NOTE Utc.noteA] =
    run Utc.twoNotesState [DELETE_NOTE Utc.noteA].
Proof.
  assert (uniqueIds Utc.twoNotesState) as Hunique by evaluated.
  split; [exact Hunique|].
  apply (@delete_twice Utc.collaborators Utc.twoNotesState Utc.noteA Hunique).
Defined.

(** X10 on a load followed by a reload. *)
Lemma loaded_stays_witness :
  loaded Utc.selectedState = true ∧
  reachable Utc.selectedState Utc.reloadedState ∧
  loaded Utc.reloadedState = true.
Proof.
  assert (reachable Utc.selectedState Utc.reloadedState) as Hreach.
  { apply (run_reachable _ [LOAD_COLLECTION_COMPLETE [Utc.noteA_renamed]]).
    reflexivity. }
  split; [reflexivity|]. split; [exact Hreach|].
  apply (@loaded_stays Utc.collaborators Utc.selectedState Utc.reloadedState
           eq_refl Hreach).
Defined.

(** * The list of version-control items and its selection

    [VcsItemListManager] keeps the item references of the changed files
    and the set of the ids of the selected ones.  The panes and portals it
    creates in the document are outside the model. *)

Module VcsItemList.

(** ** [Set<string>], in insertion order *)

Definition Set_has (x : string) (set : list string) : bool := bool_decide (x ∈ set).

Definition Set_add (x : string) (set : list string) : list string :=
  if Set_has x set then set else set ++ [x].

Definition Set_delete (x : string) (set : list string) : list string :=
  filter (λ y, y ≠ x) set.

(** ** Items *)

(** The component of an item, [VcsItem], with its [select(emitEvent)] and
    [deselect(emitEvent)]; they are not part of the manager. *)
Class VcsItems := {
  VcsItem : Type;
  select : bool → VcsItem → VcsItem;
  deselect : bool → VcsItem → VcsItem;
}.

Section Manager.
Context `{VcsItems}.

Record VcsItemConfig := { checked : bool }.

Record VcsItemRef := {
  id : string;
  _config : VcsItemConfig;
  componentInstance : VcsItem;
}.

(** [ref._config.checked = true] *)
Definition check (ref : VcsItemRef) : VcsItemRef :=
  {| id := id ref; _config := {| checked := true |};
     componentInstance := componentInstance ref |}.

(** [ref.componentInstance.select(false)], [....deselect(false)] *)
Definition selectComponent (ref : VcsItemRef) : VcsItemRef :=
  {| id := id ref; _config := _config ref;
     componentInstance := select false (componentInstance ref) |}.

Definition deselectComponent (ref : VcsItemRef) : VcsItemRef :=
  {| id := id ref; _config := _config ref;
     componentInstance := deselect false (componentInstance ref) |}.

(** The key manager of the Angular CDK, as far as the manager uses it: the
    items and the index [setActiveItem] stores. *)
Record FocusKeyManager := {
  items : list VcsItem;
  activeItemIndex : Z;
}.

Definition setActiveItem (index : Z) (keyManager : FocusKeyManager) : FocusKeyManager :=
  {| items := items keyManager; activeItemIndex := index |}.

Record VcsItemListManager := {
  _itemRefs : list VcsItemRef;
  _keyManager : option FocusKeyManager;
  _selectedItems : list string;
  (** how often [selectionChangeStream.next()] has run *)
  selectionChanges : nat;
}.

Inductive VcsItemEventNames := UPDATE_CHECKED | OTHER_EVENT.

Record VcsItemEvent := {
  name : VcsItemEventNames;
  source_id : string;
  payload_checked : bool;
}.

(** The manager as its constructor leaves it. *)
Definition new : VcsItemListManager :=
  {| _itemRefs := []; _keyManager := None; _selectedItems := [];
     selectionChanges := 0 |}.

Definition getSelectedItems (m : VcsItemListManager) : list VcsItemRef :=
  foldl
    (λ refs selected,
       match list_find (λ ref, id ref = selected) (_itemRefs m) with
       | Some (_, ref) => refs ++ [ref]
       | None => refs
       end)
    [] (_selectedItems m).

(** The loop of [initWithFileChanges] over the previous selections: an id
    that one of the new references has is selected again, and the first
    reference with the id is checked. *)
Definition restoreSelection (state : list VcsItemRef * list string) (selected : string)
  : list VcsItemRef * list string :=
  let index := findIndex (λ ref, bool_decide (id ref = selected)) state.1 in
  if decide (index ≠ -1)
  then (alter check (Z.to_nat index) state.1, Set_add selected state.2)
  else state.

Definition _updateKeyManager (m : VcsItemListManager) : VcsItemListManager :=
  {| _itemRefs := _itemRefs m;
     _keyManager :=
       Some {| items := componentInstance <$> _itemRefs m; activeItemIndex := -1 |};
     _selectedItems := _selectedItems m;
     selectionChanges := selectionChanges m |}.

(** [initWithFileChanges], with [created] the references the item maker's
    promise resolves with, each with the component that is attached to
    it. *)
Definition initWithFileChanges (created : list VcsItemRef) (m : VcsItemListManager)
  : VcsItemListManager :=
  let previousSelections := _selectedItems m in
  let restored := foldl restoreSelection (created, []) previousSelections in
  _updateKeyManager
    {| _itemRefs := [] ++ restored.1;
       _keyManager := _keyManager m;
       _selectedItems := restored.2;
       selectionChanges := selectionChanges m |}.

Definition selectAllItems (m : VcsItemListManager) : VcsItemListManager :=
  {| _itemRefs := selectComponent <$> _itemRefs m;
     _keyManager := _keyManager m;
     _selectedItems := foldl (λ set ref, Set_add (id ref) set) (_selectedItems m) (_itemRefs m);
     selectionChanges := selectionChanges m |}.

Definition deselectAllItems (m : VcsItemListManager) : VcsItemListManager :=
  {| _itemRefs := deselectComponent <$> _itemRefs m;
     _keyManager := _keyManager m;
     _selectedItems := [];
     selectionChanges := selectionChanges m |}.

Definition updateItemSelection (index : Z) (selected : bool) (m : VcsItemListManager)
  : VcsItemListManager :=
  match array_get (_itemRefs m) index with
  | None => m
  | Some ref =>
      let hasSelected := Set_has (id ref) (_selectedItems m) in
      if hasSelected && negb selected then
        {| _itemRefs := _itemRefs m; _keyManager := _keyManager m;
           _selectedItems := Set_delete (id ref) (_selectedItems m);
           selectionChanges := S (selectionChanges m) |}
      else if negb hasSelected && selected then
        {| _itemRefs := _itemRefs m; _keyManager := _keyManager m;
           _selectedItems := Set_add (id ref) (_selectedItems m);
           selectionChanges := S (selectionChanges m) |}
      else m
  end.

Definition areAllItemsSelected (m : VcsItemListManager) : bool :=
  bool_decide (length (_selectedItems m) = length (_itemRefs m)).

Definition isEmptySelection (m : VcsItemListManager) : bool :=
  bool_decide (length (_selectedItems m) = 0%nat).

Definition handleItemEvent (event : VcsItemEvent) (m : VcsItemListManager)
  : result VcsItemListManager :=
  let index := findIndex (λ ref, bool_decide (id ref = source_id event)) (_itemRefs m) in
  match name event with
  | UPDATE_CHECKED =>
      keyManager ← deref (_keyManager m);
      Ok (updateItemSelection index (payload_checked event)
            {| _itemRefs := _itemRefs m;
               _keyManager := Some (setActiveItem index keyManager);
               _selectedItems := _selectedItems m;
               selectionChanges := selectionChanges m |})
  | OTHER_EVENT => Ok m
  end.

Definition destroy (m : VcsItemListManager) : VcsItemListManager :=
  {| _itemRefs := []; _keyManager := None; _selectedItems := [];
     selectionChanges := selectionChanges m |}.

(** ** The calls of a client *)

Inductive Call :=
  | InitWithFileChanges (created : list VcsItemRef)
  | SelectAllItems
  | DeselectAllItems
  | UpdateItemSelection (index : Z) (selected : bool)
  | HandleItemEvent (event : VcsItemEvent)
  | Destroy.

Definition perform (call : Call) (m : VcsItemListManager) : result VcsItemListManager :=
  match call with
  | InitWithFileChanges created => Ok (initWithFileChanges created m)
  | SelectAllItems => Ok (selectAllItems m)
  | DeselectAllItems => Ok (deselectAllItems m)
  | UpdateItemSelection index selected => Ok (updateItemSelection index selected m)
  | HandleItemEvent event => handleItemEvent event m
  | Destroy => Ok (destroy m)
  end.

(** The ids of the item references, in order. *)
Definition itemIds (m : VcsItemListManager) : list string := id <$> _itemRefs m.

(** The selection is a set, and every id in it is the id of an item. *)
Definition selectionOfItems (m : VcsItemListManager) : Prop :=
  NoDup (_selectedItems m) ∧ ∀ x, x ∈ _selectedItems m → x ∈ itemIds m.

(** What the loop over the previous selections keeps, for the references
    [created] it started from: a reference is as created or checked, a
    checked one has a selected id, and the first reference with a selected
    id is checked. *)
Definition restored (created : list VcsItemRef)
    (state : list VcsItemRef * list string) : Prop :=
  (∀ i, state.1 !! i = created !! i ∨
        ∃ r, created !! i = Some r ∧ state.1 !! i = Some (check r) ∧ id r ∈ state.2) ∧
  (∀ x, x ∈ state.2 →
        ∃ i r, state.1 !! i = Some r ∧ id r = x ∧ checked (_config r) = true ∧
               ∀ j r', (j < i)%nat → state.1 !! j = Some r' → id r' ≠ x).

End Manager.

(** A component that is its own selection mark, and three references. *)
Definition flags : VcsItems :=
  {| VcsItem := bool; select := λ _ _, true; deselect := λ _ _, false |}.

Definition ref (id' : string) : @VcsItemRef flags :=
  @Build_VcsItemRef flags id' {| checked := false |} false.

(** Two items, then the first selected, then both. *)
Definition twoItems : @VcsItemListManager flags :=
  initWithFileChanges [ref "a.md"; ref "b.md"] new.
Definition firstSelected : @VcsItemListManager flags :=
  updateItemSelection 0 true twoItems.
Definition bothSelected : @VcsItemListManager flags :=
  updateItemSelection 1 true firstSelected.

(** The key manager of two items. *)
Definition twoFlags : @FocusKeyManager flags :=
  @Build_FocusKeyManager flags [false; false] (-1).

(** The first item is checked, and then an item that is not in the list. *)
Definition firstChecked : VcsItemEvent :=
  {| name := UPDATE_CHECKED; source_id := "a.md"; payload_checked := true |}.
Definition strangerChecked : VcsItemEvent :=
  {| name := UPDATE_CHECKED; source_id := "c.md"; payload_checked := true |}.

End VcsItemList.

Module VcsItemListFacts.
Import VcsItemList.

Section Sets.

Implicit Types set : list string.

Lemma Set_has_true x set : Set_has x set = true ↔ x ∈ set.
Proof. unfold Set_has. apply bool_decide_eq_true. Qed.

Lemma Set_has_false x set : Set_has x set = false ↔ x ∉ set.
Proof. unfold Set_has. apply bool_decide_eq_false. Qed.

Lemma elem_of_Set_add x y set : x ∈ Set_add y set ↔ x = y ∨ x ∈ set.
Proof.
  unfold Set_add. destruct (Set_has y set) eqn:Hy.
  - apply Set_has_true in Hy. split; [by right|]. by intros [->|?].
  - rewrite elem_of_app, list_elem_of_singleton. tauto.
Qed.

Lemma NoDup_Set_add y set : NoDup set → NoDup (Set_add y set).
Proof.
  intros Hset. unfold Set_add. destruct (Set_has y set) eqn:Hy; [done|].
  apply Set_has_false in Hy. apply NoDup_app. split_and!; [done| |apply NoDup_singleton].
  by intros x Hx ->%list_elem_of_singleton.
Qed.

Lemma elem_of_Set_delete x y set : x ∈ Set_delete y set ↔ x ≠ y ∧ x ∈ set.
Proof. unfold Set_delete. rewrite list_elem_of_filter. done. Qed.

Lemma NoDup_Set_delete y set : NoDup set → NoDup (Set_delete y set).
Proof. apply NoDup_filter. Qed.

Lemma Set_add_present y set : y ∈ set → Set_add y set = set.
Proof. intros Hy. unfold Set_add. by rewrite (proj2 (Set_has_true y set) Hy). Qed.

End Sets.

Section Facts.
Context `{VcsItems}.

Implicit Types m : VcsItemListManager.
Implicit Types refs : list VcsItemRef.

(** Adding the ids of references to a set. *)
Lemma addAll_spec refs (set : list string) :
  let set' := foldl (λ set ref, Set_add (id ref) set) set refs in
  (NoDup set → NoDup set') ∧ ∀ x, x ∈ set' ↔ x ∈ set ∨ x ∈ id <$> refs.
Proof.
  revert set. induction refs as [|ref refs IH]; intros set; simpl.
  - split; [done|]. intros x. rewrite elem_of_nil. tauto.
  - destruct (IH (Set_add (id ref) set)) as [Hnodup Helem]. split.
    + intros Hset. by apply Hnodup, NoDup_Set_add.
    + intros x. rewrite Helem, elem_of_Set_add, elem_of_cons. tauto.
Qed.

Lemma restoreSelection_spec (state : list VcsItemRef * list string) (selected : string) :
  let state' := restoreSelection state selected in
  id <$> state'.1 = id <$> state.1 ∧
  (NoDup state.2 → NoDup state'.2) ∧
  (∀ x, x ∈ state'.2 ↔ x ∈ state.2 ∨ (x = selected ∧ selected ∈ id <$> state.1)).
Proof.
  unfold restoreSelection.
  destruct (findIndex_cases (λ ref, bool_decide (id ref = selected)) state.1)
    as [[Hall ->]|(pre & r & post & Hrefs & Hpre & Hr & ->)].
  - rewrite decide_False by lia. split_and!; [done|done|].
    intros x. split; [by left|]. intros [?|[-> Hin]]; [done|].
    apply list_elem_of_fmap in Hin as (r & -> & Hr).
    rewrite Forall_forall in Hall. specialize (Hall r Hr).
    by apply bool_decide_eq_false in Hall.
  - rewrite decide_True by lia. simpl. apply bool_decide_eq_true in Hr.
    rewrite Nat2Z.id. split_and!.
    + rewrite Hrefs, alter_app_r_alt, Nat.sub_diag by lia. simpl.
      by rewrite !fmap_app, !fmap_cons.
    + apply NoDup_Set_add.
    + intros x. rewrite elem_of_Set_add. split; [|tauto].
      intros [->|?]; [|by left]. right. split; [done|].
      rewrite Hrefs, fmap_app, fmap_cons, Hr, elem_of_app, elem_of_cons. tauto.
Qed.

Lemma restore_spec (previous : list string) (state : list VcsItemRef * list string) :
  let state' := foldl restoreSelection state previous in
  id <$> state'.1 = id <$> state.1 ∧
  (NoDup state.2 → NoDup state'.2) ∧
  (∀ x, x ∈ state'.2 ↔
        x ∈ state.2 ∨ (x ∈ previous ∧ x ∈ id <$> state.1)).
Proof.
  revert state. induction previous as [|selected previous IH]; intros state; simpl.
  - split_and!; [done|done|]. intros x. rewrite elem_of_nil. tauto.
  - destruct (IH (restoreSelection state selected)) as (Hids & Hnodup & Helem).
    destruct (restoreSelection_spec state selected) as (Hids1 & Hnodup1 & Helem1).
    split_and!.
    + by rewrite Hids.
    + intros Hstate. by apply Hnodup, Hnodup1.
    + intros x. rewrite Helem, Helem1, Hids1, elem_of_cons.
      split; [intros [[?|[-> ?]]|[? ?]]|intros [?|[[->|?] ?]]]; tauto.
Qed.

Lemma updateItemSelection_refs (index : Z) (selected : bool) m :
  _itemRefs (updateItemSelection index selected m) = _itemRefs m.
Proof.
  unfold updateItemSelection. destruct (array_get (_itemRefs m) index); [|done].
  by repeat case_match.
Qed.

Lemma array_get_elem_of {A} (l : list A) (index : Z) (x : A) :
  array_get l index = Some x → x ∈ l.
Proof.
  unfold array_get. case_decide; [|done]. apply list_elem_of_lookup_2.
Qed.

Lemma updateItemSelection_selectionOfItems (index : Z) (selected : bool) m :
  selectionOfItems m → selectionOfItems (updateItemSelection index selected m).
Proof.
  intros [Hnodup Hsub]. unfold updateItemSelection.
  destruct (array_get (_itemRefs m) index) as [r|] eqn:Hr; [|done].
  repeat case_match; try done; split; simpl.
  - by apply NoDup_Set_delete.
  - intros x [_ Hx]%elem_of_Set_delete. by apply Hsub.
  - by apply NoDup_Set_add.
  - intros x [->|Hx]%elem_of_Set_add; [|by apply Hsub].
    apply list_elem_of_fmap_2. by eapply array_get_elem_of.
Qed.

Lemma itemIds_selectAllItems m : itemIds (selectAllItems m) = itemIds m.
Proof. unfold itemIds. simpl. rewrite <-list_fmap_compose. done. Qed.

Lemma selectAllItems_selection m :
  selectionOfItems m →
  NoDup (_selectedItems (selectAllItems m)) ∧
  ∀ x, x ∈ _selectedItems (selectAllItems m) ↔ x ∈ itemIds m.
Proof.
  intros [Hnodup Hsub]. simpl.
  destruct (addAll_spec (_itemRefs m) (_selectedItems m)) as [Hnodup' Helem].
  split; [by apply Hnodup'|]. intros x. rewrite Helem. unfold itemIds in *.
  split; [intros [?|?]; by auto|by right].
Qed.

(** X13. Every call keeps the selection within the items: if the selected
    ids are ids of item references before a call, without an id twice,
    they are so in the manager the call leaves. *)
Theorem selection_stays_within_items (call : Call) m m' :
  selectionOfItems m →
  perform call m = Ok m' →
  selectionOfItems m'.
Proof.
  intros Hm. destruct call; simpl.
  - intros [= <-]. unfold selectionOfItems, itemIds. simpl.
    destruct (restore_spec (_selectedItems m) (created, [])) as (Hids & Hnodup & Helem).
    split; [apply Hnodup; constructor|].
    intros x [Hx|[_ Hx]]%Helem; [by apply elem_of_nil in Hx|]. by rewrite Hids.
  - intros [= <-]. destruct (selectAllItems_selection m Hm) as [Hnodup Helem].
    split; [done|]. intros x Hx. rewrite itemIds_selectAllItems. by apply Helem.
  - intros [= <-]. split; simpl; [constructor|]. by intros x Hx%elem_of_nil.
  - intros [= <-]. by apply updateItemSelection_selectionOfItems.
  - unfold handleItemEvent. destruct (name event); [|by intros [= <-]].
    destruct (_keyManager m) as [keyManager|]; simpl; [|done].
    intros [= <-]. by apply updateItemSelection_selectionOfItems.
  - intros [= <-]. split; simpl; [constructor|]. by intros x Hx%elem_of_nil.
Qed.

(** X14. With pairwise distinct item ids and the selection within the
    items, [areAllItemsSelected], which compares two sizes, is true exactly
    when the id of every item is selected. *)
Theorem areAllItemsSelected_iff m :
  selectionOfItems m →
  NoDup (itemIds m) →
  areAllItemsSelected m = true ↔ ∀ x, x ∈ itemIds m → x ∈ _selectedItems m.
Proof.
  intros [Hnodup Hsub] Hids. unfold areAllItemsSelected.
  rewrite bool_decide_eq_true.
  assert (length (itemIds m) = length (_itemRefs m)) as Hlen
    by apply length_fmap.
  pose proof (NoDup_submseteq _ _ Hnodup Hsub) as Hincl.
  split.
  - intros Hsize x Hx.
    assert (_selectedItems m ≡ₚ itemIds m) as Hperm
      by (apply submseteq_length_Permutation; [done|lia]).
    by rewrite Hperm.
  - intros Hall.
    pose proof (submseteq_length _ _ Hincl).
    pose proof (submseteq_length _ _ (NoDup_submseteq _ _ Hids Hall)). lia.
Qed.

(** X15. After [selectAllItems], [areAllItemsSelected] is true exactly
    when the item ids are pairwise distinct: two items with one id count
    once in the selection and twice in the list. *)
Theorem selectAllItems_all_selected m :
  selectionOfItems m →
  areAllItemsSelected (selectAllItems m) = true ↔ NoDup (itemIds m).
Proof.
  intros Hm. destruct (selectAllItems_selection m Hm) as [Hnodup Helem].
  unfold areAllItemsSelected. rewrite bool_decide_eq_true.
  assert (length (_itemRefs (selectAllItems m)) = length (itemIds m)) as ->.
  { simpl. unfold itemIds. by rewrite !length_fmap. }
  split.
  - intros Hsize.
    assert (_selectedItems (selectAllItems m) ≡ₚ itemIds m) as Hperm.
    { apply submseteq_length_Permutation; [|lia].
      apply NoDup_submseteq; [done|]. intros x. by apply Helem. }
    by rewrite <-Hperm.
  - intros Hids. apply Permutation_length, NoDup_Permutation; done.
Qed.

Lemma getSelectedItems_fold (refs acc : list VcsItemRef) (selection : list string) :
  (∀ x, x ∈ selection → x ∈ id <$> refs) →
  let found :=
    foldl
      (λ acc selected,
         match list_find (λ ref, id ref = selected) refs with
         | Some (_, ref) => acc ++ [ref]
         | None => acc
         end)
      acc selection in
  id <$> found = (id <$> acc) ++ selection ∧
  ∀ r, r ∈ found → r ∈ acc ∨ r ∈ refs.
Proof.
  revert acc. induction selection as [|selected selection IH]; intros acc Hsub; simpl.
  - rewrite app_nil_r. split; [done|]. by left.
  - assert (selected ∈ id <$> refs) as Hin by (apply Hsub; by left).
    apply list_elem_of_fmap in Hin as (r0 & Hr0 & Hin).
    destruct (list_find_elem_of (λ ref, id ref = selected) refs r0 Hin)
      as [[i r] Hfind]; [done|].
    rewrite Hfind. apply list_find_Some in Hfind as (Hlookup & Hid & _).
    destruct (IH (acc ++ [r])) as [Hids Helem].
    { intros x Hx. apply Hsub. by right. }
    split.
    + rewrite Hids, fmap_app. simpl. rewrite Hid, <-app_assoc. done.
    + intros r' Hr'. apply Helem in Hr' as [Hr'|Hr']; [|by right].
      apply elem_of_app in Hr' as [Hr'|Hr']; [by left|].
      apply list_elem_of_singleton in Hr' as ->.
      right. by eapply list_elem_of_lookup_2.
Qed.

(** X16. With the selection within the items, [getSelectedItems] returns
    one reference for each selected id, in the order of selection, each of
    them a reference of the list. *)
Theorem getSelectedItems_ids m :
  selectionOfItems m →
  id <$> getSelectedItems m = _selectedItems m ∧
  ∀ r, r ∈ getSelectedItems m → r ∈ _itemRefs m.
Proof.
  intros [_ Hsub].
  destruct (getSelectedItems_fold (_itemRefs m) [] (_selectedItems m) Hsub)
    as [Hids Helem].
  split; [done|]. intros r [Hr|Hr]%Helem; [by apply elem_of_nil in Hr|done].
Qed.

(** X17. [updateItemSelection] at an index outside the list changes
    nothing.  At the index of an item it makes the membership of the
    item's id what is asked for, leaves every other id as it was, and
    announces a change exactly when the membership changed. *)
Theorem updateItemSelection_effect (index : Z) (selected : bool) m :
  match array_get (_itemRefs m) index with
  | None => updateItemSelection index selected m = m
  | Some r =>
      let m' := updateItemSelection index selected m in
      Set_has (id r) (_selectedItems m') = selected ∧
      (∀ x, x ≠ id r → Set_has x (_selectedItems m') = Set_has x (_selectedItems m)) ∧
      selectionChanges m' =
        (if bool_decide (Set_has (id r) (_selectedItems m) = selected)
         then selectionChanges m else S (selectionChanges m)) ∧
      _itemRefs m' = _itemRefs m
  end.
Proof.
  unfold updateItemSelection.
  destruct (array_get (_itemRefs m) index) as [r|]; [|done]. simpl.
  destruct (Set_has (id r) (_selectedItems m)) eqn:Hhas, selected; simpl;
    rewrite ?Hhas; split_and!; try done.
  - apply Set_has_false. rewrite elem_of_Set_delete. by intros [? _].
  - intros x Hx. unfold Set_has. apply bool_decide_ext.
    rewrite elem_of_Set_delete. tauto.
  - apply Set_has_true. rewrite elem_of_Set_add. by left.
  - intros x Hx. unfold Set_has. apply bool_decide_ext.
    rewrite elem_of_Set_add. tauto.
Qed.

Lemma updateItemSelection_has (index : Z) (selected : bool) m (r : VcsItemRef) :
  array_get (_itemRefs m) index = Some r →
  Set_has (id r) (_selectedItems (updateItemSelection index selected m)) = selected.
Proof.
  intros Hr. unfold updateItemSelection. rewrite Hr.
  destruct (Set_has (id r) (_selectedItems m)) eqn:Hhas, selected; simpl; try done.
  - apply Set_has_false. rewrite elem_of_Set_delete. by intros [? _].
  - apply Set_has_true. rewrite elem_of_Set_add. by left.
Qed.

(** X18. [updateItemSelection] is idempotent: the same call once more
    changes nothing and announces nothing. *)
Theorem updateItemSelection_idempotent (index : Z) (selected : bool) m :
  updateItemSelection index selected (updateItemSelection index selected m) =
  updateItemSelection index selected m.
Proof.
  unfold updateItemSelection at 1.
  rewrite updateItemSelection_refs.
  destruct (array_get (_itemRefs m) index) as [r|] eqn:Hr; [|done].
  rewrite (updateItemSelection_has index selected m r Hr). by destruct selected.
Qed.

(** X19. Without a key manager, as before the first
    [initWithFileChanges] and after [destroy], [handleItemEvent] throws on
    an [UPDATE_CHECKED] event. *)
Theorem handleItemEvent_without_key_manager (event : VcsItemEvent) m :
  name event = UPDATE_CHECKED →
  handleItemEvent event new = Throw TypeError ∧
  handleItemEvent event (destroy m) = Throw TypeError ∧
  (_keyManager m = None → handleItemEvent event m = Throw TypeError).
Proof.
  intros Hname. unfold handleItemEvent. rewrite Hname. simpl.
  split_and!; try done. by intros ->.
Qed.

(** X20. An [UPDATE_CHECKED] event of an item that is not in the list
    selects nothing: with a key manager, [handleItemEvent] sets its active
    index to [-1] and leaves the references, the selection and the count
    of announced changes as they were. *)
Theorem handleItemEvent_unknown_source (event : VcsItemEvent) m
    (keyManager : FocusKeyManager) :
  name event = UPDATE_CHECKED →
  source_id event ∉ itemIds m →
  _keyManager m = Some keyManager →
  handleItemEvent event m =
    Ok {| _itemRefs := _itemRefs m;
          _keyManager := Some (setActiveItem (-1) keyManager);
          _selectedItems := _selectedItems m;
          selectionChanges := selectionChanges m |}.
Proof.
  intros Hname Hsource Hkey. unfold handleItemEvent. rewrite Hname, Hkey. simpl.
  rewrite findIndex_none.
  - unfold updateItemSelection. simpl. by rewrite ?array_get_negative.
  - apply Forall_forall. intros r Hr. apply bool_decide_eq_false. intros Hid.
    apply Hsource. rewrite <-Hid. by apply list_elem_of_fmap_2.
Qed.

Lemma restoreSelection_restored (created : list VcsItemRef)
    (state : list VcsItemRef * list string) (selected : string) :
  restored created state → restored created (restoreSelection state selected).
Proof.
  intros [Hrefs Hfirst]. unfold restoreSelection.
  destruct (findIndex_cases (λ ref, bool_decide (id ref = selected)) state.1)
    as [[Hall ->]|(pre & r & post & Hstate & Hpre & Hr & ->)].
  { by rewrite decide_False by lia. }
  rewrite decide_True by lia. rewrite Nat2Z.id. apply bool_decide_eq_true in Hr.
  assert (state.1 !! length pre = Some r) as Hk
    by (rewrite Hstate; apply list_lookup_middle; done).
  split; simpl.
  - intros i. destruct (decide (i = length pre)) as [->|Hi].
    + right. rewrite list_lookup_alter_eq, Hk. simpl.
      destruct (Hrefs (length pre)) as [Hsame|(r0 & Hcreated & Hchecked & Hin)].
      * exists r. rewrite <-Hsame, Hk. split_and!; [done|done|].
        rewrite elem_of_Set_add. by left.
      * exists r0. rewrite Hk in Hchecked. injection Hchecked as ->.
        split_and!; [done|done|]. rewrite elem_of_Set_add. by right.
    + rewrite list_lookup_alter_ne by done.
      destruct (Hrefs i) as [Hsame|(r0 & Hcreated & Hchecked & Hin)]; [by left|].
      right. exists r0. split_and!; [done|done|]. rewrite elem_of_Set_add. by right.
  - intros x [->|Hx]%elem_of_Set_add.
    + exists (length pre), (check r). rewrite list_lookup_alter_eq, Hk.
      split_and!; try done. intros j r' Hj. rewrite list_lookup_alter_ne by lia.
      rewrite Hstate, lookup_app_l by done. intros Hr'.
      rewrite Forall_lookup in Hpre. specialize (Hpre j r' Hr').
      by apply bool_decide_eq_false in Hpre.
    + destruct (Hfirst x Hx) as (i & r0 & Hi & Hid & Hchecked & Hbefore).
      destruct (decide (i = length pre)) as [->|Hne].
      * exists (length pre), (check r0). rewrite list_lookup_alter_eq, Hi.
        split_and!; try done. intros j r' Hj. rewrite list_lookup_alter_ne by lia.
        by apply Hbefore.
      * exists i, r0. rewrite list_lookup_alter_ne by done.
        split_and!; try done. intros j r' Hj.
        destruct (decide (j = length pre)) as [->|Hj'].
        -- rewrite list_lookup_alter_eq, Hk. intros [= <-]. simpl.
           by apply (Hbefore (length pre) r).
        -- rewrite list_lookup_alter_ne by done. by apply Hbefore.
Qed.

Lemma restore_restored (created : list VcsItemRef) (previous : list string)
    (state : list VcsItemRef * list string) :
  restored created state → restored created (foldl restoreSelection state previous).
Proof.
  revert state. induction previous as [|selected previous IH]; intros state; simpl;
    [done|].
  intros Hstate. by apply IH, restoreSelection_restored.
Qed.

(** X21. [initWithFileChanges] keeps the selections that still exist: the
    list has the created references in their order; an id is selected
    afterwards exactly when it was selected before and one of the created
    references has it; the first reference with a selected id is checked;
    a reference whose id was not selected before is as it was created; and
    no change of the selection is announced. *)
Theorem initWithFileChanges_restores (created : list VcsItemRef) m :
  let m' := initWithFileChanges created m in
  itemIds m' = id <$> created ∧
  (∀ x, x ∈ _selectedItems m' ↔ x ∈ _selectedItems m ∧ x ∈ id <$> created) ∧
  (∀ x, x ∈ _selectedItems m' →
        ∃ i r, _itemRefs m' !! i = Some r ∧ id r = x ∧ checked (_config r) = true ∧
               ∀ j r', (j < i)%nat → _itemRefs m' !! j = Some r' → id r' ≠ x) ∧
  (∀ i r, created !! i = Some r → id r ∉ _selectedItems m →
          _itemRefs m' !! i = Some r) ∧
  selectionChanges m' = selectionChanges m.
Proof.
  simpl. unfold itemIds. simpl.
  destruct (restore_spec (_selectedItems m) (created, [])) as (Hids & _ & Helem).
  destruct (restore_restored created (_selectedItems m) (created, []))
    as [Hrefs Hfirst].
  { split; [by left|]. by intros x Hx%elem_of_nil. }
  split_and!; try done.
  - intros x. rewrite Helem. simpl. rewrite elem_of_nil. tauto.
  - intros i r Hcreated Hnot.
    destruct (Hrefs i) as [Hsame|(r0 & Hcreated0 & _ & Hin)]; [by rewrite Hsame|].
    rewrite Hcreated in Hcreated0. injection Hcreated0 as <-.
    apply Helem in Hin as [Hin|[Hin _]]; [by apply elem_of_nil in Hin|done].
Qed.

Lemma selectionOfItems_Forall m :
  NoDup (_selectedItems m) ∧ Forall (λ x, x ∈ itemIds m) (_selectedItems m) →
  selectionOfItems m.
Proof. intros [Hnodup Hall]. split; [done|]. by apply Forall_forall. Qed.

End Facts.

#[local] Existing Instance flags.

Ltac selection_checked :=
  apply selectionOfItems_Forall, (bool_decide_unpack _); vm_compute; exact I.

(** Two items with one id: all selected, and not "all selected". *)
Example selectAllItems_twins :
  _selectedItems (selectAllItems (initWithFileChanges [ref "a.md"; ref "a.md"] new)) =
    ["a.md"] ∧
  areAllItemsSelected
    (selectAllItems (initWithFileChanges [ref "a.md"; ref "a.md"] new)) = false.
Proof. split; reflexivity. Qed.

(** X13 on the selection of the second item. *)
Lemma selection_stays_within_items_witness :
  selectionOfItems firstSelected ∧
  perform (UpdateItemSelection 1 true) firstSelected = Ok bothSelected ∧
  selectionOfItems bothSelected.
Proof.
  assert (selectionOfItems firstSelected) as Hm by selection_checked.
  split; [exact Hm|]. split; [reflexivity|].
  apply (@selection_stays_within_items flags (UpdateItemSelection 1 true)
           firstSelected bothSelected Hm eq_refl).
Defined.

(** X14 on two items, both selected. *)
Lemma areAllItemsSelected_iff_witness :
  selectionOfItems bothSelected ∧
  NoDup (itemIds bothSelected) ∧
  (areAllItemsSelected bothSelected = true ↔
   ∀ x, x ∈ itemIds bothSelected → x ∈ _selectedItems bothSelected).
Proof.
  assert (selectionOfItems bothSelected) as Hm by selection_checked.
  assert (NoDup (itemIds bothSelected)) as Hids
    by (apply (bool_decide_unpack _); vm_compute; exact I).
  split; [exact Hm|]. split; [exact Hids|].
  apply (@areAllItemsSelected_iff flags bothSelected Hm Hids).
Defined.

(** X15 on two items. *)
Lemma selectAllItems_all_selected_witness :
  selectionOfItems twoItems ∧
  (areAllItemsSelected (selectAllItems twoItems) = true ↔ NoDup (itemIds twoItems)).
Proof.
  assert (selectionOfItems twoItems) as Hm by selection_checked.
  split; [exact Hm|].
  apply (@selectAllItems_all_selected flags twoItems Hm).
Defined.

(** X16 on two items, both selected. *)
Lemma getSelectedItems_ids_witness :
  selectionOfItems bothSelected ∧
  id <$> getSelectedItems bothSelected = _selectedItems bothSelected ∧
  ∀ r, r ∈ getSelectedItems bothSelected → r ∈ _itemRefs bothSelected.
Proof.
  assert (selectionOfItems bothSelected) as Hm by selection_checked.
  split; [exact Hm|].
  apply (@getSelectedItems_ids flags bothSelected Hm).
Defined.

(** X19 on a fresh manager and on a destroyed one. *)
Lemma handleItemEvent_without_key_manager_witness :
  name firstChecked = UPDATE_CHECKED ∧
  handleItemEvent firstChecked new = Throw TypeError ∧
  handleItemEvent firstChecked (destroy bothSelected) = Throw TypeError ∧
  (_keyManager bothSelected = None →
   handleItemEvent firstChecked bothSelected = Throw TypeError).
Proof.
  split; [reflexivity|].
  apply (@handleItemEvent_without_key_manager flags firstChecked bothSelected eq_refl).
Defined.

(** X20 on an event of "c.md" in a list of "a.md" and "b.md". *)
Lemma handleItemEvent_unknown_source_witness :
  name strangerChecked = UPDATE_CHECKED ∧
  (source_id strangerChecked ∉ itemIds firstSelected) ∧
  _keyManager firstSelected = Some twoFlags ∧
  handleItemEvent strangerChecked firstSelected =
    Ok {| _itemRefs := _itemRefs firstSelected;
          _keyManager :=
            Some (setActiveItem (-1) twoFlags);
          _selectedItems := _selectedItems firstSelected;
          selectionChanges := selectionChanges firstSelected |}.
Proof.
  assert (source_id strangerChecked ∉ itemIds firstSelected) as Hsource
    by (apply (bool_decide_unpack _); vm_compute; exact I).
  split; [reflexivity|]. split; [exact Hsource|]. split; [reflexivity|].
  apply (@handleItemEvent_unknown_source flags strangerChecked firstSelected
           twoFlags eq_refl Hsource eq_refl).
Defined.

End VcsItemListFacts.

(** * The chip list: where the focus goes when a chip is destroyed

    [ChipListComponent] remembers the index of a focused chip that is
    destroyed, and when the list of chips has changed it asks its key
    manager to activate the chip at that index, or the last one.  The key
    manager is the Angular CDK's and keeps its own state; the model has the
    calls of [setActiveItem] that these functions make. *)

Module ChipList.

(** A chip: what tells it from the others, and whether it has the focus. *)
Record ChipDirective := {
  uid : nat;
  _hasFocus : bool;
}.

#[global] Instance ChipDirective_eq_dec : EqDecision ChipDirective.
Proof. solve_decision. Defined.












End ChipList.
